(** * NFL playbook simulator: the SVG play-diagram generator of [app.py]

    A shallow embedding of the diagram pipeline ([generate_field_svg],
    [generate_offensive_formation_svg], [generate_defensive_formation_svg],
    [generate_coverage_zones_svg], [generate_soft_spots_svg],
    [generate_route_svg], [generate_play_diagram]) and the properties the
    specification states about it.

    Conventions.
    - Python [str] values are [string]; [a + b] and [svg += b] are [+:+].
    - Python [int] values are [Z]; their interpolation [{x}] inside an
      f-string is [pretty], the decimal printer of stdpp.
    - The markup is written with the apostrophe standing for the double
      quote of the source; [q] puts the double quotes back.
    - A [dict] read with [.get] is a [gmap]; the one dict that is iterated
      ([positions.items()]) is an association list in insertion order.
    - The layout dicts of the defensive renderer are objects in a store,
      because the renderer assigns into the dict it has looked up. *)

From Stdlib Require Import Ascii String.
From stdpp Require Import gmap strings pretty list fin_maps.

Open Scope string_scope.
Open Scope Z_scope.

(** ** Python strings *)

Module Py.

(** The newline of a triple-quoted literal. *)
Definition nl : string := String "010"%char EmptyString.

Definition q_char (c : ascii) : ascii :=
  if Ascii.eqb c "'"%char then "034"%char else c.

(** [q s] is [s] with every apostrophe turned into a double quote. *)
Fixpoint q (s : string) : string :=
  match s with
  | EmptyString => EmptyString
  | String c r => String (q_char c) (q r)
  end.

(** [str(n)] for an [int]. *)
Definition str (n : Z) : string := pretty n.

(** Truthiness of [concept] in [if concept:]: [None] and the empty
    string are falsy. *)
Definition truthy (o : option string) : bool :=
  match o with
  | None => false
  | Some EmptyString => false
  | Some (String _ _) => true
  end.

(** [for v in l: svg += f v], started from [svg]. *)
Definition accumulate {A} (f : A → string) (l : list A) (svg : string) : string :=
  foldl (λ acc v, acc +:+ f v) svg l.

End Py.

Import Py.

(** A position on the 400 x 250 canvas. *)
Abbreviation pos := (Z * Z)%type.

(** ** [generate_field_svg] *)

Definition generate_field_svg : string :=
  q (nl +:+
  "    <rect x='0' y='0' width='400' height='250' fill='#2d5a27' />" +:+ nl +:+
  "    <line x1='0' y1='50' x2='400' y2='50' stroke='white' stroke-width='2' />" +:+ nl +:+
  "    <line x1='0' y1='100' x2='400' y2='100' stroke='white' stroke-width='2' />" +:+ nl +:+
  "    <line x1='0' y1='150' x2='400' y2='150' stroke='white' stroke-width='2' />" +:+ nl +:+
  "    <line x1='0' y1='200' x2='400' y2='200' stroke='white' stroke-width='2' />" +:+ nl +:+
  "    <line x1='200' y1='0' x2='200' y2='250' stroke='white' stroke-width='1' stroke-dasharray='5,5' />" +:+ nl +:+
  "    ").

(** ** [generate_offensive_formation_svg] *)

Module Offense.

(** The local dict [positions], in insertion order. *)
Definition positions : list (string * pos) :=
  [ ("C", (200, 150)); ("LG", (170, 150)); ("RG", (230, 150));
    ("LT", (140, 150)); ("RT", (260, 150)); ("QB", (200, 175));
    ("RB", (200, 200)); ("WR1", (50, 150)); ("WR2", (350, 150));
    ("TE", (290, 150)); ("SLOT", (100, 150)) ].

Definition circle (x y : Z) (fill : string) : string :=
  q ("<circle cx='" +:+ str x +:+ "' cy='" +:+ str y +:+ "' r='10' fill='"
     +:+ fill +:+ "' stroke='white' stroke-width='2' />").

Definition square (x y : Z) : string :=
  q ("<rect x='" +:+ str (x - 8) +:+ "' y='" +:+ str (y - 8)
     +:+ "' width='16' height='16' fill='#4169e1' stroke='white' stroke-width='2' />").

(** The body of the loop: the [if]/[elif] chain on the role name. *)
Definition marker (item : string * pos) : string :=
  let '(role, (x, y)) := item in
  if bool_decide (role ∈ ["WR1"; "WR2"; "SLOT"]) then circle x y "#1e90ff"
  else if bool_decide (role = "QB") then circle x y "#ffd700"
  else if bool_decide (role = "RB") then circle x y "#32cd32"
  else if bool_decide (role = "TE") then circle x y "#1e90ff"
  else square x y.

End Offense.

(** The parameter [formation] (default ["pro"]) is never read. *)
Definition generate_offensive_formation_svg (formation : string) : string :=
  accumulate Offense.marker Offense.positions "".

(** ** [generate_defensive_formation_svg] *)

Module Defense.

(** A layout dict: role group to positions. *)
Abbreviation layout := (gmap string (list pos)).

(** The store: dict objects by address.  [base_positions] holds the
    addresses of its four layout dicts, so the dict bound to [positions]
    is the very object the table refers to. *)
Abbreviation addr := nat.
Abbreviation heap := (gmap nat (gmap string (list pos))).
Abbreviation table := (gmap string nat).

Definition new_dict (d : layout) (h : heap) : addr * heap :=
  let a := size h in (a, <[a := d]> h).

Definition layout_4_3 : layout :=
  list_to_map
    [ ("DL", [(155, 135); (185, 135); (215, 135); (245, 135)]);
      ("LB", [(140, 110); (200, 105); (260, 110)]);
      ("CB", [(50, 100); (350, 100)]);
      ("S", [(150, 60); (250, 60)]) ].

Definition layout_3_4 : layout :=
  list_to_map
    [ ("DL", [(170, 135); (200, 135); (230, 135)]);
      ("LB", [(120, 115); (165, 110); (235, 110); (280, 115)]);
      ("CB", [(50, 100); (350, 100)]);
      ("S", [(150, 60); (250, 60)]) ].

Definition layout_nickel : layout :=
  list_to_map
    [ ("DL", [(155, 135); (185, 135); (215, 135); (245, 135)]);
      ("LB", [(170, 110); (230, 110)]);
      ("CB", [(50, 100); (350, 100)]);
      ("SLOT_CB", [(100, 105)]);
      ("S", [(150, 50); (250, 50)]) ].

Definition layout_dime : layout :=
  list_to_map
    [ ("DL", [(155, 135); (185, 135); (215, 135); (245, 135)]);
      ("LB", [(200, 105)]);
      ("CB", [(50, 100); (350, 100)]);
      ("SLOT_CB", [(100, 105); (300, 105)]);
      ("S", [(150, 45); (250, 45)]) ].

(** The source text of the table, as plain data. *)
Definition base_layouts : list (string * layout) :=
  [ ("4-3", layout_4_3); ("3-4", layout_3_4);
    ("nickel", layout_nickel); ("dime", layout_dime) ].

(** Evaluating the dict literal [base_positions = {...}]: every inner
    dict is a fresh object, the outer dict maps the key to it. *)
Fixpoint build (entries : list (string * layout)) (h : heap) : table * heap :=
  match entries with
  | [] => (∅, h)
  | (k, d) :: rest =>
      let '(a, h1) := new_dict d h in
      let '(t, h2) := build rest h1 in
      (<[k := a]> t, h2)
  end.

(** The state of one call: the table bound to [base_positions] and the
    store holding its layout dicts. *)
Record state := State { st_table : table; st_heap : heap }.

Definition base_positions : state :=
  let '(t, h) := build base_layouts ∅ in State t h.

(** [base_positions.get(formation, base_positions["4-3"])].  The default
    is evaluated first, and subscripting raises when the key is absent. *)
Definition lookup_layout (formation : string) (st : state) : option addr :=
  dflt ← st_table st !! "4-3";
  Some (default dflt (st_table st !! formation)).

Definition two_deep : list string :=
  ["cover_2"; "cover_2_man"; "tampa_2"; "cover_4"; "cover_6"].
Definition single_high : list string :=
  ["cover_3"; "cover_3_sky"; "cover_3_cloud"; "cover_1"; "cover_1_robber"].

(** The [if]/[elif] chain on the coverage: the new safety positions, if
    any. *)
Definition safety_adjustment (coverage : string) : option (list pos) :=
  if bool_decide (coverage ∈ two_deep) then Some [(120, 40); (280, 40)]
  else if bool_decide (coverage ∈ single_high) then Some [(200, 35); (250, 80)]
  else if bool_decide (coverage = "cover_0") then Some [(180, 95); (220, 95)]
  else None.

(** [positions["S"] = v]: a store into the dict object at [positions]. *)
Definition setitem (positions : addr) (k : string) (v : list pos) (st : state) : state :=
  State (st_table st) (alter (λ d, <[k := v]> d) positions (st_heap st)).

Definition adjust (coverage : string) (positions : addr) (st : state) : state :=
  match safety_adjustment coverage with
  | Some v => setitem positions "S" v st
  | None => st
  end.

(** [positions.get(role, [])] *)
Definition get (d : layout) (role : string) : list pos := default [] (d !! role).

Definition triangle (fill : string) (p : pos) : string :=
  let '(x, y) := p in
  q ("<polygon points='" +:+ str x +:+ "," +:+ str (y - 10) +:+ " "
     +:+ str (x - 10) +:+ "," +:+ str (y + 8) +:+ " "
     +:+ str (x + 10) +:+ "," +:+ str (y + 8)
     +:+ "' fill='" +:+ fill +:+ "' stroke='white' stroke-width='2' />").

(** The fill colours of the five loops (the two cornerback loops share
    theirs). *)
Definition DL_fill : string := "#dc143c".
Definition LB_fill : string := "#ff6347".
Definition CB_fill : string := "#ff4500".
Definition S_fill : string := "#ff8c00".

(** The five drawing loops, in source order. *)
Definition draw (d : layout) : string :=
  let svg := "" in
  let svg := accumulate (triangle DL_fill) (get d "DL") svg in
  let svg := accumulate (triangle LB_fill) (get d "LB") svg in
  let svg := accumulate (triangle CB_fill) (get d "CB") svg in
  let svg := accumulate (triangle CB_fill) (get d "SLOT_CB") svg in
  let svg := accumulate (triangle S_fill) (get d "S") svg in
  svg.

(** The function up to the drawing loops: the address bound to
    [positions] and the state after the coverage adjustment. *)
Definition prepare (formation coverage : string) : option (addr * state) :=
  let st := base_positions in
  positions ← lookup_layout formation st;
  Some (positions, adjust coverage positions st).

(** The dict the drawing loops read. *)
Definition drawn_layout (formation coverage : string) : option layout :=
  '(positions, st) ← prepare formation coverage;
  st_heap st !! positions.

(** *** Reading the table

    The definitions below are not code of the renderer: they name what
    the properties speak about. *)

Definition known_formations : list string := ["4-3"; "3-4"; "nickel"; "dime"].

(** [base_positions[key]], read in state [st]. *)
Definition entry (st : state) (key : string) : option layout :=
  a ← st_table st !! key;
  st_heap st !! a.

(** The layout the text of the table gives a formation key, and the one
    of 4-3 for a key it does not list. *)
Definition base_layout (formation : string) : layout :=
  default layout_4_3 ((list_to_map base_layouts : gmap string layout) !! formation).

(** The base layout with its safety group replaced as the coverage asks. *)
Definition adjusted_layout (formation coverage : string) : layout :=
  match safety_adjustment coverage with
  | Some v => <["S" := v]> (base_layout formation)
  | None => base_layout formation
  end.

(** The number of positions over the five role groups. *)
Definition positions_total (d : layout) : nat :=
  (length (get d "DL") + length (get d "LB") + length (get d "CB")
   + length (get d "SLOT_CB") + length (get d "S"))%nat.

(** The call leaves every entry of its table as the literal built it. *)
Definition table_preserved (formation coverage : string) : Prop :=
  ∀ a st, prepare formation coverage = Some (a, st) →
    ∀ key, entry st key = entry base_positions key.

End Defense.

Definition generate_defensive_formation_svg (formation coverage : string) : option string :=
  d ← Defense.drawn_layout formation coverage;
  Some (Defense.draw d).

(** ** [generate_coverage_zones_svg] *)

Module Zones.

Record zone := Zone {
  type : string; x : Z; y : Z; w : Z; h : Z; color : string }.

Definition zones : gmap string (list zone) :=
  list_to_map
    [ ("cover_0", []);
      ("cover_1", [ Zone "deep" 50 0 300 60 "rgba(255,165,0,0.3)" ]);
      ("cover_2",
        [ Zone "deep" 50 0 150 50 "rgba(255,165,0,0.3)";
          Zone "deep" 200 0 150 50 "rgba(255,165,0,0.3)";
          Zone "flat" 0 50 80 60 "rgba(255,69,0,0.3)";
          Zone "flat" 320 50 80 60 "rgba(255,69,0,0.3)" ]);
      ("tampa_2",
        [ Zone "deep" 50 0 120 50 "rgba(255,165,0,0.3)";
          Zone "deep" 170 0 60 70 "rgba(255,140,0,0.3)";
          Zone "deep" 230 0 120 50 "rgba(255,165,0,0.3)" ]);
      ("cover_3",
        [ Zone "deep" 0 0 133 60 "rgba(255,69,0,0.3)";
          Zone "deep" 133 0 134 60 "rgba(255,165,0,0.3)";
          Zone "deep" 267 0 133 60 "rgba(255,69,0,0.3)" ]);
      ("cover_4",
        [ Zone "deep" 0 0 100 60 "rgba(255,69,0,0.3)";
          Zone "deep" 100 0 100 60 "rgba(255,165,0,0.3)";
          Zone "deep" 200 0 100 60 "rgba(255,165,0,0.3)";
          Zone "deep" 300 0 100 60 "rgba(255,69,0,0.3)" ]) ].

(** The colour is interpolated as it is, so it stays outside [q]. *)
Definition rect (z : zone) : string :=
  q ("<rect x='" +:+ str (x z) +:+ "' y='" +:+ str (y z)
     +:+ "' width='" +:+ str (w z) +:+ "' height='" +:+ str (h z)
     +:+ "' fill='") +:+ color z +:+ q "' />".

End Zones.

Definition generate_coverage_zones_svg (coverage : string) : string :=
  accumulate Zones.rect (default [] (Zones.zones !! coverage)) "".

(** ** [generate_soft_spots_svg] *)

Module Spots.

Record spot := Spot { x : Z; y : Z; label : string }.

Definition spots : gmap string (list spot) :=
  list_to_map
    [ ("cover_0", [ Spot 200 30 "Deep - no help!" ]);
      ("cover_1", [ Spot 100 80 "Crossers"; Spot 300 80 "Crossers" ]);
      ("cover_2",
        [ Spot 200 25 "Hole Shot"; Spot 70 15 "Corner"; Spot 330 15 "Corner" ]);
      ("tampa_2", [ Spot 120 40 "Seam"; Spot 280 40 "Seam" ]);
      ("cover_3",
        [ Spot 100 50 "Seam"; Spot 300 50 "Seam";
          Spot 50 90 "Flat"; Spot 350 90 "Flat" ]);
      ("cover_4",
        [ Spot 50 90 "Flat"; Spot 350 90 "Flat";
          Spot 150 85 "Curl"; Spot 250 85 "Curl" ]);
      ("cover_2_man", [ Spot 200 75 "Crossers" ]) ].

(** The pulsing circle and its label.  The label is interpolated as it
    is, so it stays outside [q]. *)
Definition pulse (s : spot) : string :=
  q (nl +:+
  "        <circle cx='" +:+ str (x s) +:+ "' cy='" +:+ str (y s)
    +:+ "' r='15' fill='rgba(0,255,0,0.4)' stroke='#00ff00' stroke-width='2'>" +:+ nl +:+
  "            <animate attributeName='r' values='12;18;12' dur='1.5s' repeatCount='indefinite'/>" +:+ nl +:+
  "            <animate attributeName='opacity' values='0.6;0.3;0.6' dur='1.5s' repeatCount='indefinite'/>" +:+ nl +:+
  "        </circle>" +:+ nl +:+
  "        <text x='" +:+ str (x s) +:+ "' y='" +:+ str (y s + 30)
    +:+ "' text-anchor='middle' fill='#00ff00' font-size='10' font-weight='bold'>")
  +:+ label s +:+ "</text>" +:+ nl +:+
  "        ".

End Spots.

Definition generate_soft_spots_svg (coverage : string) : string :=
  accumulate Spots.pulse (default [] (Spots.spots !! coverage)) "".

(** ** [generate_route_svg] *)

Module Routes.

Record route := Route { from : pos; to : pos; type : string }.

Definition routes : gmap string (list route) :=
  list_to_map
    [ ("four_verticals",
        [ Route (50, 150) (50, 20) "go";
          Route (100, 150) (130, 20) "seam";
          Route (290, 150) (270, 20) "seam";
          Route (350, 150) (350, 20) "go" ]);
      ("curl_flat",
        [ Route (50, 150) (70, 80) "curl";
          Route (100, 150) (50, 110) "flat" ]);
      ("smash",
        [ Route (50, 150) (60, 110) "hitch";
          Route (100, 150) (40, 40) "corner" ]);
      ("mesh",
        [ Route (50, 150) (250, 110) "cross";
          Route (350, 150) (150, 110) "cross" ]);
      ("levels",
        [ Route (50, 150) (200, 115) "shallow";
          Route (350, 150) (200, 80) "dig" ]);
      ("flood",
        [ Route (50, 150) (30, 20) "clear";
          Route (100, 150) (60, 50) "corner";
          Route (200, 200) (40, 120) "flat" ]);
      ("slant_flat",
        [ Route (50, 150) (120, 100) "slant";
          Route (100, 150) (50, 120) "flat" ]) ].

(** The route line with its arrow. *)
Definition line (r : route) : string :=
  let '(x1, y1) := from r in
  let '(x2, y2) := to r in
  q (nl +:+
  "        <line x1='" +:+ str x1 +:+ "' y1='" +:+ str y1
    +:+ "' x2='" +:+ str x2 +:+ "' y2='" +:+ str y2
    +:+ "' stroke='#00bfff' stroke-width='3' marker-end='url(#arrowhead)' />" +:+ nl +:+
  "        ").

End Routes.

Definition generate_route_svg (concept : string) : string :=
  accumulate Routes.line (default [] (Routes.routes !! concept)) "".

(** ** [generate_play_diagram] *)

Module Diagram.

(** The f-string up to its first interpolation. *)
Definition header : string :=
  q (nl +:+
  "    <svg viewBox='0 0 400 250' xmlns='http://www.w3.org/2000/svg'>" +:+ nl +:+
  "        <defs>" +:+ nl +:+
  "            <marker id='arrowhead' markerWidth='10' markerHeight='7' refX='9' refY='3.5' orient='auto'>" +:+ nl +:+
  "                <polygon points='0 0, 10 3.5, 0 7' fill='#00bfff' />" +:+ nl +:+
  "            </marker>" +:+ nl +:+
  "        </defs>" +:+ nl +:+
  "        ").

(** The text between two interpolations, and after the last one. *)
Definition sep : string := nl +:+ "        ".
Definition footer : string := nl +:+ "    ".

(** The f-string, once its five interpolations are evaluated. *)
Definition body (field zones spots offense defense : string) : string :=
  header +:+ field +:+ sep +:+ zones +:+ sep +:+ spots +:+ sep
    +:+ offense +:+ sep +:+ defense +:+ footer.

Definition close : string := "</svg>".

End Diagram.

(** [concept] is [None] when the argument is left out. *)
Definition generate_play_diagram (formation coverage : string) (concept : option string)
    : option string :=
  let field := generate_field_svg in
  let zones := generate_coverage_zones_svg coverage in
  let spots := generate_soft_spots_svg coverage in
  let offense := generate_offensive_formation_svg "pro" in
  defense ← generate_defensive_formation_svg formation coverage;
  let svg := Diagram.body field zones spots offense defense in
  let svg :=
    match concept with
    | Some c => if truthy concept then svg +:+ generate_route_svg c else svg
    | None => svg
    end in
  Some (svg +:+ Diagram.close).

(** ** Reading a diagram document

    What the properties below observe of a document: its elements by tag
    name and attribute, and the labels of its text elements. *)

Module Svg.

(** [contains p s]: [p] occurs in [s]. *)
Fixpoint contains (p s : string) : bool :=
  match s with
  | EmptyString => String.prefix p s
  | String _ r => if String.prefix p s then true else contains p r
  end.

(** The number of suffixes of [s] that pass [test]. *)
Fixpoint count (test : string → bool) (s : string) : nat :=
  match s with
  | EmptyString => 0%nat
  | String _ r => ((if test s then 1 else 0) + count test r)%nat
  end.

(** [occurrences p s]: the number of places of [s] where [p] starts. *)
Definition occurrences (p s : string) : nat := count (String.prefix p) s.

(** The text of [s] before the first [c], and after it. *)
Fixpoint before (c : ascii) (s : string) : string :=
  match s with
  | EmptyString => EmptyString
  | String a r => if Ascii.eqb a c then EmptyString else String a (before c r)
  end.

Fixpoint after (c : ascii) (s : string) : string :=
  match s with
  | EmptyString => EmptyString
  | String a r => if Ascii.eqb a c then r else after c r
  end.

(** [s] opens an element [name] whose start tag carries the text [attr]. *)
Definition element (name attr : string) (s : string) : bool :=
  if String.prefix ("<" +:+ name +:+ " ") s then contains attr (before ">" s)
  else false.

Definition filled (fill : string) : string := q ("fill='" +:+ fill +:+ "'").

(** Triangular markers of one fill colour. *)
Definition markers (fill : string) (doc : string) : nat :=
  count (element "polygon" (filled fill)) doc.

(** Defensive markers: the triangles in the four role-group colours. *)
Definition defensive_markers (doc : string) : nat :=
  (markers Defense.DL_fill doc + markers Defense.LB_fill doc
   + markers Defense.CB_fill doc + markers Defense.S_fill doc)%nat.

(** Zone overlays: the rectangles with a translucent fill. *)
Definition zone_overlays (doc : string) : nat :=
  count (element "rect" (q "fill='rgba(")) doc.

(** Hotspots: the circles that carry the pulse fill. *)
Definition hotspots (doc : string) : nat :=
  count (element "circle" (filled "rgba(0,255,0,0.4)")) doc.

(** The labels of the text elements, in document order. *)
Fixpoint labels (doc : string) : list string :=
  match doc with
  | EmptyString => []
  | String _ r =>
      (if String.prefix "<text " doc then [before "<" (after ">" doc)] else [])
        ++ labels r
  end.

(** Route segments: the lines that end in the arrowhead marker. *)
Definition route_segments (doc : string) : nat :=
  count (element "line" (q "marker-end='url(#arrowhead)'")) doc.

(** [c] occurs in [s]. *)
Fixpoint has (c : ascii) (s : string) : bool :=
  match s with
  | EmptyString => false
  | String a r => if Ascii.eqb a c then true else has c r
  end.

(** Every tag that opens in [s] closes in [s]. *)
Fixpoint closed (s : string) : bool :=
  match s with
  | EmptyString => true
  | String c r =>
      if Ascii.eqb c "<" then (if has ">" r then closed r else false)
      else closed r
  end.

(** [p] has no [>] before its last character. *)
Fixpoint tag_shaped (p : string) : bool :=
  match p with
  | EmptyString => true
  | String x p' =>
      if Ascii.eqb x ">" then (match p' with EmptyString => true | _ => false end)
      else tag_shaped p'
  end.

(** A test that fires only where a tag opens, and that reads no further
    than the end of that tag. *)
Record tag_test (test : string → bool) : Prop := TagTest {
  fires_on_tag s : test s = true → ∃ r, s = String "<" r;
  reads_tag s b : has ">" s = true → test (s +:+ b) = test s }.

(** The fragments occur in [doc] one after the other, in list order. *)
Inductive in_order : list string → string → Prop :=
  | in_order_nil doc : in_order [] doc
  | in_order_cons pre frag frags rest :
      in_order frags rest → in_order (frag :: frags) (pre +:+ frag +:+ rest).

End Svg.

(** ** The keys of the tables, and checking a property on all of them *)

Module Keys.

(** Every coverage key that one of the tables of the source lists. *)
Definition known_coverages : list string :=
  [ "cover_0"; "cover_1"; "cover_2"; "tampa_2"; "cover_3"; "cover_4";
    "cover_2_man"; "cover_6"; "cover_3_sky"; "cover_3_cloud"; "cover_1_robber" ].

Definition known_concepts : list string :=
  [ "four_verticals"; "curl_flat"; "smash"; "mesh"; "levels"; "flood";
    "slant_flat" ].

(** A key that no table lists behaves as one fixed key: an unlisted
    formation as 4-3, an unlisted coverage as the empty coverage, an
    unlisted concept as no concept. *)
Definition rep_formation (f : string) : string :=
  if bool_decide (f ∈ Defense.known_formations) then f else "4-3".

Definition rep_coverage (c : string) : string :=
  if bool_decide (c ∈ known_coverages) then c else "".

Definition rep_concept (k : option string) : option string :=
  match k with
  | Some s => if bool_decide (s ∈ known_concepts) then Some s else None
  | None => None
  end.

Definition coverage_reps : list string := "" :: known_coverages.
Definition concept_reps : list (option string) := None :: (Some <$> known_concepts).

Definition for_all (cs : list string) (P : string → string → bool) : bool :=
  forallb (λ f, forallb (P f) cs) Defense.known_formations.

End Keys.

(** The route layer of a call: the routes of the concept key, nothing when
    the key is left out. *)
Definition route_layer (concept : option string) : string :=
  match concept with
  | Some c => generate_route_svg c
  | None => ""
  end.

(** The two parts of a document: the f-string of the composer, its five
    layers evaluated, and what is appended to it. *)
Definition page (f c : string) : string :=
  Diagram.body generate_field_svg (generate_coverage_zones_svg c)
    (generate_soft_spots_svg c) (generate_offensive_formation_svg "pro")
    (Defense.draw (Defense.adjusted_layout f c)).

Definition tail (k : option string) : string := route_layer k +:+ Diagram.close.

Module Verdict.

(** The page closes its tags, is not empty, and has as many defensive
    markers as the adjusted layout has positions; the one other polygon is
    the arrowhead of the header.  Its safety markers are the ones of the
    safety positions of the adjusted layout. *)
Definition page_ok (f c : string) : bool :=
  let doc := page f c in
  let d := Defense.adjusted_layout f c in
  let total := Defense.positions_total d in
  Svg.closed doc
  && negb (String.eqb doc "")
  && Nat.eqb (Svg.defensive_markers doc) total
  && Nat.eqb (Svg.occurrences "<polygon " doc) (S total)
  && Nat.eqb (Svg.markers Defense.S_fill doc) (length (Defense.get d "S"))
  && forallb (λ p,
       let marker := Defense.triangle Defense.S_fill p in
       Svg.tag_shaped marker
       && String.prefix "<polygon " marker
       && Nat.eqb (Svg.occurrences marker doc) 1)
       (Defense.get d "S").

(** No zone overlay, no hotspot and no text element. *)
Definition page_sparse (f c : string) : bool :=
  let doc := page f c in
  Nat.eqb (Svg.zone_overlays doc) 0
  && Nat.eqb (Svg.hotspots doc) 0
  && Nat.eqb (Svg.occurrences "<text " doc) 0.

(** What follows the page opens no polygon, rectangle, circle or text
    element. *)
Definition tail_ok (k : option string) : bool :=
  let s := tail k in
  Nat.eqb (Svg.occurrences "<polygon " s) 0
  && Nat.eqb (Svg.occurrences "<rect " s) 0
  && Nat.eqb (Svg.occurrences "<circle " s) 0
  && Nat.eqb (Svg.occurrences "<text " s) 0.

End Verdict.

(** ** The values of the data files and of the responses

    [DEFENSES] and [OFFENSE] are what [json.load] returns for the two data
    files; the files are not part of the sources, so the handlers take the
    two values as arguments.  A value is a JSON value whose numbers are
    integers; an object keeps its members in the order of the file, with
    no key twice.  A string is its UTF-8 text.

    A handler returns what it hands to [jsonify], with the status of the
    response; an exception that leaves the handler is [Raise]. *)

Module Json.

#[local] Set Warnings "-register-all".

Inductive json :=
  | JNull
  | JBool (b : bool)
  | JNum (n : Z)
  | JStr (s : string)
  | JArr (l : list json)
  | JObj (o : list (string * json)).

Inductive exn := KeyError | TypeError | AttributeError.

Inductive result (A : Type) :=
  | Ok (a : A)
  | Raise (e : exn).
Arguments Ok {A} a.
Arguments Raise {A} e.

Definition bind {A B} (r : result A) (k : A → result B) : result B :=
  match r with
  | Ok a => k a
  | Raise e => Raise e
  end.

Global Instance result_bind : MBind result := λ A B k r, bind r k.

(** The member of an object under a key. *)
Fixpoint assoc {A} (k : string) (o : list (string * A)) : option A :=
  match o with
  | [] => None
  | (k', v) :: r => if String.eqb k' k then Some v else assoc k r
  end.

(** [d[k]] for a string [k]: only a dict can be subscripted by a string,
    and the key must be there. *)
Definition getitem (d : json) (k : string) : result json :=
  match d with
  | JObj o =>
      match assoc k o with
      | Some v => Ok v
      | None => Raise KeyError
      end
  | _ => Raise TypeError
  end.

(** [d.get(k, dflt)] for a string [k]: only a dict has the method. *)
Definition get (d : json) (k : string) (dflt : json) : result json :=
  match d with
  | JObj o => Ok (default dflt (assoc k o))
  | _ => Raise AttributeError
  end.

(** [d.items()] *)
Definition items (d : json) : result (list (string * json)) :=
  match d with
  | JObj o => Ok o
  | _ => Raise AttributeError
  end.

(** The truth value of [v] in [if v:] and [not v]. *)
Definition truth (v : json) : bool :=
  match v with
  | JNull => false
  | JBool b => b
  | JNum n => negb (Z.eqb n 0)
  | JStr s => negb (String.eqb s "")
  | JArr l => match l with [] => false | _ => true end
  | JObj o => match o with [] => false | _ => true end
  end.

(** Lists and dicts cannot be hashed. *)
Definition hashable (v : json) : bool :=
  match v with
  | JArr _ | JObj _ => false
  | _ => true
  end.

(** [d.get(k, dflt)] for any value [k]: the keys of [d] are strings, so a
    key of another hashable type is not found. *)
Definition get_any (d : json) (k : json) (dflt : json) : result json :=
  match d with
  | JObj o =>
      match k with
      | JStr s => Ok (default dflt (assoc s o))
      | JArr _ | JObj _ => Raise TypeError
      | _ => Ok dflt
      end
  | _ => Raise AttributeError
  end.

(** A byte that continues a UTF-8 character: 10xxxxxx. *)
Definition continuation (c : ascii) : bool :=
  match c with
  | Ascii _ _ _ _ _ _ b6 b7 => b7 && negb b6
  end.

(** The characters of a string, each with its UTF-8 bytes. *)
Fixpoint chars (s : string) : list string :=
  match s with
  | EmptyString => []
  | String c r =>
      match r with
      | String c' _ =>
          if continuation c' then
            match chars r with
            | h :: t => String c h :: t
            | [] => [String c EmptyString]
            end
          else String c EmptyString :: chars r
      | EmptyString => [String c EmptyString]
      end
  end.

(** What [for x in v] and [set(v)] run through: the items of a list, the
    characters of a string, the keys of a dict. *)
Definition iterate (v : json) : result (list json) :=
  match v with
  | JArr l => Ok l
  | JStr s => Ok (JStr <$> chars s)
  | JObj o => Ok (JStr <$> o.*1)
  | _ => Raise TypeError
  end.

(** The number that a number or a truth value counts as. *)
Definition num (v : json) : Z :=
  match v with
  | JNum n => n
  | JBool true => 1
  | _ => 0
  end.

(** [a + b] *)
Definition plus (a b : json) : result json :=
  match a, b with
  | JArr l1, JArr l2 => Ok (JArr (l1 ++ l2)%list)
  | JStr s1, JStr s2 => Ok (JStr (s1 +:+ s2))
  | (JNum _ | JBool _), (JNum _ | JBool _) => Ok (JNum (num a + num b))
  | _, _ => Raise TypeError
  end.

(** [a == b] on hashable values. *)
Definition py_eqb (a b : json) : bool :=
  match a, b with
  | JNull, JNull => true
  | JStr s, JStr t => String.eqb s t
  | (JNum _ | JBool _), (JNum _ | JBool _) => Z.eqb (num a) (num b)
  | _, _ => false
  end.

(** The members of the set that grows by adding the items of [l] one after
    the other to the members [seen], in the order in which they came in. *)
Fixpoint distinct (seen l : list json) : list json :=
  match l with
  | [] => seen
  | x :: r => if existsb (py_eqb x) seen then distinct seen r
              else distinct (seen ++ [x])%list r
  end.

(** [list(set(v))[:n]].  [order] is the order in which the process
    iterates over a set with the given members. *)
Definition set_list (order : list json → list json) (n : nat) (v : json)
    : result (list json) :=
  bind (iterate v) (λ l,
    if forallb hashable l then Ok (take n (order (distinct [] l)))
    else Raise TypeError).

(** All that is known of the order of a set: it runs through the members,
    each once. *)
Definition set_order (order : list json → list json) : Prop :=
  ∀ l, order l ≡ₚ l.

(** [for x in l: s = body s x], until a step raises. *)
Fixpoint for_each {A S} (l : list A) (body : S → A → result S) (s : S) : result S :=
  match l with
  | [] => Ok s
  | x :: r => bind (body s x) (for_each r body)
  end.

End Json.

Import Json.

(** The table [D[name]] read with [.get(key, {})]. *)
Definition table_get (D : json) (name key : string) : result json :=
  t ← getitem D name; get t key (JObj []).

(** ** [get_all_plays] *)

Module Plays.

Definition play_id (form_key cov_key blitz_key : string) : string :=
  form_key +:+ "_" +:+ cov_key +:+ "_" +:+ blitz_key.

(** The dict literal of the innermost loop. *)
Definition play (form_key : string) (formation : json) (cov_key : string)
    (coverage : json) (blitz_key : string) (blitz : json) : result json :=
  formation_name ← getitem formation "name";
  coverage_name ← getitem coverage "name";
  blitz_name ← getitem blitz "name";
  Ok (JObj [ ("id", JStr (play_id form_key cov_key blitz_key));
             ("formation", JStr form_key);
             ("formation_name", formation_name);
             ("coverage", JStr cov_key);
             ("coverage_name", coverage_name);
             ("blitz", JStr blitz_key);
             ("blitz_name", blitz_name) ]).

(** The body of the innermost loop: [plays.append({...})]. *)
Definition add_play (form_key : string) (formation : json) (cov_key : string)
    (coverage : json) (plays : list json) (entry : string * json)
    : result (list json) :=
  let '(blitz_key, blitz) := entry in
  p ← play form_key formation cov_key coverage blitz_key blitz;
  Ok (plays ++ [p])%list.

(** The loops over the blitz packages and over the coverages; each reads
    its table when the loop around it reaches it. *)
Definition over_blitzes (DEFENSES : json) (form_key : string) (formation : json)
    (plays : list json) (entry : string * json) : result (list json) :=
  let '(cov_key, coverage) := entry in
  blitzes ← (t ← getitem DEFENSES "blitz_packages"; items t);
  for_each blitzes (add_play form_key formation cov_key coverage) plays.

Definition over_coverages (DEFENSES : json) (plays : list json)
    (entry : string * json) : result (list json) :=
  let '(form_key, formation) := entry in
  coverages ← (t ← getitem DEFENSES "coverages"; items t);
  for_each coverages (over_blitzes DEFENSES form_key formation) plays.

(** *** Reading the response *)

Definition named (v : json) : Prop := ∃ n, getitem v "name" = Ok n.

(** The name of an entry that has one. *)
Definition name_of (v : json) : json :=
  match getitem v "name" with
  | Ok n => n
  | Raise _ => JNull
  end.

(** The play of three entries that have names. *)
Definition play_of (f c b : string * json) : json :=
  JObj [ ("id", JStr (play_id f.1 c.1 b.1));
         ("formation", JStr f.1);
         ("formation_name", name_of f.2);
         ("coverage", JStr c.1);
         ("coverage_name", name_of c.2);
         ("blitz", JStr b.1);
         ("blitz_name", name_of b.2) ].

(** The keys of a table have no underscore. *)
Definition plain (T : list (string * json)) : Prop :=
  Forall (λ e, Svg.has "_" e.1 = false) T.

(** The id of a play of the response. *)
Definition id_of (p : json) : result json := getitem p "id".

(** Every combination, the formation slowest, the blitz fastest. *)
Definition combinations (F C B : list (string * json)) : list json :=
  f ← F; c ← C; b ← B; [play_of f c b].

End Plays.

Definition get_all_plays (DEFENSES : json) : result (nat * json) :=
  formations ← (t ← getitem DEFENSES "formations"; items t);
  plays ← for_each formations (Plays.over_coverages DEFENSES) [];
  Ok (200%nat, JObj [ ("plays", JArr plays);
                      ("count", JNum (Z.of_nat (length plays))) ]).

(** ** [get_concept_diagram] *)

Module Concept.

Definition not_found : nat * json :=
  (404%nat, JObj [ ("status", JStr "error"); ("message", JStr "Concept not found") ]).

(** The table that [concept_type] selects. *)
Definition table_name (concept_type : string) : string :=
  if bool_decide (concept_type = "pass") then "pass_concepts" else "run_concepts".

(** A diagram as the value of a response. *)
Definition diagram (d : option string) : result string :=
  match d with
  | Some doc => Ok doc
  | None => Raise KeyError
  end.

End Concept.

Definition get_concept_diagram (OFFENSE : json) (concept_type concept_key : string)
    : result (nat * json) :=
  concept ← (if bool_decide (concept_type = "pass")
             then table_get OFFENSE "pass_concepts" concept_key
             else table_get OFFENSE "run_concepts" concept_key);
  if negb (truth concept) then Ok Concept.not_found
  else
    diagram ← Concept.diagram (generate_play_diagram "4-3" "cover_3" (Some concept_key));
    Ok (200%nat, JObj [ ("status", JStr "ok");
                        ("concept", concept);
                        ("diagram_svg", JStr diagram) ]).

(** ** The three tables of the defense *)

Definition get_formations (DEFENSES : json) : result (nat * json) :=
  formations ← getitem DEFENSES "formations";
  Ok (200%nat, JObj [ ("formations", formations) ]).

Definition get_coverages (DEFENSES : json) : result (nat * json) :=
  coverages ← getitem DEFENSES "coverages";
  Ok (200%nat, JObj [ ("coverages", coverages) ]).

Definition get_blitzes (DEFENSES : json) : result (nat * json) :=
  blitzes ← getitem DEFENSES "blitz_packages";
  Ok (200%nat, JObj [ ("blitzes", blitzes) ]).

(** ** [analyze_defense]

    [data] is the body of the request as [request.json] gives it.
    [order] is the order in which the process iterates over a set. *)

Module Analyze.

(** The key under which the tables of the renderers are searched.  Their
    keys are strings, so a value of another type is in none of them, as
    the empty string is in none of them. *)
Definition key (v : json) : string :=
  match v with
  | JStr s => s
  | _ => ""
  end.

(** [list(set(beaters.get(field, []) + blitz_beaters.get(field, [])))[:n]] *)
Definition merged (order : list json → list json) (n : nat) (field : string)
    (beaters blitz_beaters : json) : result json :=
  a ← get beaters field (JArr []);
  b ← get blitz_beaters field (JArr []);
  s ← plus a b;
  l ← set_list order n s;
  Ok (JArr l).

(** [blitz_beaters.get(field, beaters.get(field, ""))] *)
Definition overriding (field : string) (beaters blitz_beaters : json) : result json :=
  dflt ← get beaters field (JStr "");
  get blitz_beaters field dflt.

(** The dict that replaces [beaters] when there is a blitz. *)
Definition merge (order : list json → list json) (beaters blitz_beaters : json)
    : result json :=
  best_pass ← merged order 5 "best_pass" beaters blitz_beaters;
  best_run ← merged order 4 "best_run" beaters blitz_beaters;
  priority ← overriding "priority" beaters blitz_beaters;
  key_advice ← overriding "key_advice" beaters blitz_beaters;
  Ok (JObj [ ("best_pass", best_pass);
             ("best_run", best_run);
             ("priority", priority);
             ("key_advice", key_advice) ]).

(** The body of the loop over the pass concepts. *)
Definition pass_detail (OFFENSE coverage : json) (pass_concepts : list json)
    (concept_key : json) : result (list json) :=
  concept ← (t ← getitem OFFENSE "pass_concepts"; get_any t concept_key (JObj []));
  if truth concept then
    name ← get concept "name" concept_key;
    routes ← get concept "routes" (JArr []);
    description ← get concept "description" (JStr "");
    why_it_works ← (w ← get concept "why_it_works" (JObj []);
                    get_any w coverage (JStr "Exploits coverage weakness"));
    key_read ← get concept "key_read" (JStr "");
    hot_adjustment ← get concept "hot_adjustment" (JStr "");
    Ok (pass_concepts ++ [ JObj [ ("key", concept_key);
                                  ("name", name);
                                  ("routes", routes);
                                  ("description", description);
                                  ("why_it_works", why_it_works);
                                  ("key_read", key_read);
                                  ("hot_adjustment", hot_adjustment) ] ])%list
  else Ok pass_concepts.

(** The body of the loop over the run concepts. *)
Definition run_detail (OFFENSE formation coverage : json) (run_concepts : list json)
    (concept_key : json) : result (list json) :=
  concept ← (t ← getitem OFFENSE "run_concepts"; get_any t concept_key (JObj []));
  if truth concept then
    name ← get concept "name" concept_key;
    blocking ← get concept "blocking" (JStr "");
    description ← get concept "description" (JStr "");
    why_it_works ← (w ← get concept "why_it_works" (JObj []);
                    dflt ← get_any w formation (JStr "Attacks defensive weakness");
                    get_any w coverage dflt);
    key_read ← get concept "key_read" (JStr "");
    Ok (run_concepts ++ [ JObj [ ("key", concept_key);
                                 ("name", name);
                                 ("blocking", blocking);
                                 ("description", description);
                                 ("why_it_works", why_it_works);
                                 ("key_read", key_read) ] ])%list
  else Ok run_concepts.

(** *** Reading the data and the response *)

(** The member [k] of [v], and [dflt] when there is none. *)
Definition member (k : string) (dflt : json) (v : json) : json :=
  match v with
  | JObj o => default dflt (assoc k o)
  | _ => dflt
  end.

Definition elements (v : json) : list json :=
  match v with
  | JArr l => l
  | _ => []
  end.

(** The entry of a table under a value, the empty dict when there is
    none. *)
Definition lookup (T : list (string * json)) (k : json) : json :=
  match k with
  | JStr s => default (JObj []) (assoc s T)
  | _ => JObj []
  end.

(** The concept keys of the detailed concepts of a response. *)
Definition keys (details : json) : list json :=
  member "key" JNull <$> elements details.

(** The table [D[name]], when it is a dict. *)
Definition table (D : json) (name : string) : list (string * json) :=
  match getitem D name with
  | Ok (JObj o) => o
  | _ => []
  end.

(** The list of an entry of the beaters under [field]. *)
Definition best (field : string) (v : json) : list json :=
  elements (member field (JArr []) v).

(** The list that the handler makes of the set of two lists. *)
Definition union (order : list json → list json) (n : nat) (a b : list json)
    : list json :=
  take n (order (distinct [] (a ++ b))).

(** The beaters that the handler works with: the entry of the coverage,
    merged with the entry of the blitz when there is one. *)
Definition answers (order : list json → list json) (O coverage blitz : json) : json :=
  let beaters := lookup (table O "coverage_beaters") coverage in
  let blitz_beaters := lookup (table O "coverage_beaters") blitz in
  if negb (py_eqb blitz (JStr "base")) then
    JObj [ ("best_pass", JArr (union order 5 (best "best_pass" beaters)
                                             (best "best_pass" blitz_beaters)));
           ("best_run", JArr (union order 4 (best "best_run" beaters)
                                            (best "best_run" blitz_beaters)));
           ("priority", member "priority" (member "priority" (JStr "") beaters) blitz_beaters);
           ("key_advice", member "key_advice" (member "key_advice" (JStr "") beaters)
                            blitz_beaters) ]
  else beaters.

(** *** Data that the handler reads without an exception *)

Definition hashables (v : json) : bool :=
  match v with
  | JArr l => forallb hashable l
  | _ => false
  end.

(** An entry of the table of beaters: a dict whose two lists, where it
    has them, are lists of hashable values. *)
Definition beaters_ok (v : json) : bool :=
  match v with
  | JObj o => hashables (default (JArr []) (assoc "best_pass" o))
              && hashables (default (JArr []) (assoc "best_run" o))
  | _ => false
  end.

(** An entry of a table of concepts: a dict whose explanations, where it
    has them, are a dict; or a value that counts as false. *)
Definition concept_ok (v : json) : bool :=
  match v with
  | JObj o => match default (JObj []) (assoc "why_it_works" o) with
              | JObj _ => true
              | _ => false
              end
  | _ => negb (truth v)
  end.

Definition table_ok (entry_ok : json → bool) (T : result json) : bool :=
  match T with
  | Ok (JObj o) => forallb (λ e, entry_ok e.2) o
  | _ => false
  end.

Definition offense_ok (OFFENSE : json) : bool :=
  table_ok beaters_ok (getitem OFFENSE "coverage_beaters")
  && table_ok concept_ok (getitem OFFENSE "pass_concepts")
  && table_ok concept_ok (getitem OFFENSE "run_concepts").

Definition defenses_ok (DEFENSES : json) : bool :=
  table_ok (λ _, true) (getitem DEFENSES "coverages")
  && table_ok (λ _, true) (getitem DEFENSES "formations")
  && table_ok (λ _, true) (getitem DEFENSES "blitz_packages").

(** A body whose three members, where it has them, are hashable. *)
Definition request_ok (data : json) : bool :=
  match data with
  | JObj o => forallb (λ k, hashable (default JNull (assoc k o)))
                ["formation"; "coverage"; "blitz"]
  | _ => false
  end.

End Analyze.

Definition analyze_defense (order : list json → list json)
    (DEFENSES OFFENSE data : json) : result (nat * json) :=
  formation ← get data "formation" (JStr "4-3");
  coverage ← get data "coverage" (JStr "cover_3");
  blitz ← get data "blitz" (JStr "base");
  coverage_info ← (t ← getitem DEFENSES "coverages"; get_any t coverage (JObj []));
  formation_info ← (t ← getitem DEFENSES "formations"; get_any t formation (JObj []));
  blitz_info ← (t ← getitem DEFENSES "blitz_packages"; get_any t blitz (JObj []));
  beaters ← (t ← getitem OFFENSE "coverage_beaters"; get_any t coverage (JObj []));
  beaters ← (if negb (py_eqb blitz (JStr "base")) then
               blitz_beaters ← (t ← getitem OFFENSE "coverage_beaters";
                                get_any t blitz (JObj []));
               Analyze.merge order beaters blitz_beaters
             else Ok beaters);
  pass_keys ← (l ← get beaters "best_pass" (JArr []); iterate l);
  pass_concepts ← for_each pass_keys (Analyze.pass_detail OFFENSE coverage) [];
  run_keys ← (l ← get beaters "best_run" (JArr []); iterate l);
  run_concepts ← for_each run_keys (Analyze.run_detail OFFENSE formation coverage) [];
  diagram ← Concept.diagram
              (generate_play_diagram (Analyze.key formation) (Analyze.key coverage) None);
  priority ← get beaters "priority" (JStr "");
  key_advice ← get beaters "key_advice" (JStr "");
  Ok (200%nat,
      JObj [ ("status", JStr "ok");
             ("defense", JObj [ ("formation", formation);
                                ("formation_info", formation_info);
                                ("coverage", coverage);
                                ("coverage_info", coverage_info);
                                ("blitz", blitz);
                                ("blitz_info", blitz_info) ]);
             ("offense", JObj [ ("pass_concepts", JArr pass_concepts);
                                ("run_concepts", JArr run_concepts);
                                ("priority", priority);
                                ("key_advice", key_advice) ]);
             ("diagram_svg", JStr diagram) ]).

(** ** Sample data

    Two small values in the shape that the handlers read, for the
    examples below. *)

Module Sample.

Definition entry (name : string) : json := JObj [("name", JStr name)].

Definition DEFENSES : json :=
  JObj [ ("formations", JObj [ ("4-3", entry "4-3 Base"); ("nickel", entry "Nickel") ]);
         ("coverages", JObj [ ("cover_2", entry "Cover 2"); ("cover_3", entry "Cover 3") ]);
         ("blitz_packages", JObj [ ("base", entry "Base"); ("fire", entry "Fire Zone") ]) ].

(** A table of formations one of which has no name, and no coverage. *)
Definition unnamed : json :=
  JObj [ ("formations", JObj [ ("4-3", JObj []); ("nickel", entry "Nickel") ]);
         ("coverages", JObj []) ].

Definition OFFENSE : json :=
  JObj [ ("coverage_beaters",
           JObj [ ("cover_3",
                    JObj [ ("best_pass", JArr [JStr "four_verticals"; JStr "curl_flat"; JStr "unheard_of"]);
                           ("best_run", JArr [JStr "inside_zone"]);
                           ("priority", JStr "pass");
                           ("key_advice", JStr "Attack the seams") ]);
                  ("fire",
                    JObj [ ("best_pass", JArr [JStr "slant_flat"; JStr "curl_flat"]);
                           ("priority", JStr "quick game") ]) ]);
         ("pass_concepts",
           JObj [ ("four_verticals",
                    JObj [ ("name", JStr "Four Verticals");
                           ("why_it_works", JObj [("cover_3", JStr "Four deep routes on three deep defenders")]) ]);
                  ("curl_flat", JObj [ ("name", JStr "Curl Flat") ]);
                  ("slant_flat", JObj [ ("name", JStr "Slant Flat") ]);
                  ("empty", JObj []) ]);
         ("run_concepts",
           JObj [ ("inside_zone",
                    JObj [ ("name", JStr "Inside Zone");
                           ("why_it_works", JObj [("4-3", JStr "Double teams on the tackles")]) ]) ]) ].

End Sample.

(** ** What a document holds, layer by layer *)

Module Xml.

(** The last character of [t] is a slash. *)
Fixpoint ends_in_slash (t : string) : bool :=
  match t with
  | EmptyString => false
  | String c EmptyString => Ascii.eqb c "/"
  | String _ r => ends_in_slash r
  end.

(** One pass over a text with the stack of the elements that are open:
    a start tag pushes its name, an end tag pops the same name, a tag
    that ends in a slash does neither.  [None] when an end tag does not
    match or a tag is not closed. *)
Fixpoint scan (s : string) (open : list string) : option (list string) :=
  match s with
  | EmptyString => Some open
  | String c r =>
      if Ascii.eqb c "<" then
        if Svg.has ">" r then
          match Svg.before ">" r with
          | String "/" name =>
              match open with
              | top :: rest => if String.eqb top name then scan r rest else None
              | [] => None
              end
          | t => if ends_in_slash t then scan r open
                 else scan r (Svg.before " " t :: open)
          end
        else None
      else scan r open
  end.

(** Every element of [doc] is closed, innermost first. *)
Definition balanced (doc : string) : bool :=
  match scan doc [] with
  | Some [] => true
  | _ => false
  end.

End Xml.

Module Layers.

(** [zones.get(coverage, [])], [spots.get(coverage, [])] and
    [routes.get(concept, [])], the last for a call that may leave the
    concept out. *)
Definition zones_of (c : string) : list Zones.zone := default [] (Zones.zones !! c).
Definition spots_of (c : string) : list Spots.spot := default [] (Spots.spots !! c).
Definition routes_of (k : option string) : list Routes.route :=
  match k with
  | Some c => default [] (Routes.routes !! c)
  | None => []
  end.

(** The markers of the offense: circles of radius 10 and squares of side
    16. *)
Definition player_circles (doc : string) : nat :=
  Svg.count (Svg.element "circle" (q "r='10'")) doc.
Definition line_squares (doc : string) : nat :=
  Svg.count (Svg.element "rect" (q "width='16' height='16'")) doc.

(** Every text element of [s] has its content ended by a tag inside [s]. *)
Fixpoint labels_end (s : string) : bool :=
  match s with
  | EmptyString => true
  | String _ r =>
      if String.prefix "<text " s
      then (if Svg.has "<" (Svg.after ">" s) then labels_end r else false)
      else labels_end r
  end.

Definition same_labels (l1 l2 : list string) : bool := bool_decide (l1 = l2).

(** The page of a formation and a coverage shows what the tables list. *)
Definition page_layers (f c : string) : bool :=
  let doc := page f c in
  Nat.eqb (Svg.zone_overlays doc) (length (zones_of c))
  && Nat.eqb (Svg.hotspots doc) (length (spots_of c))
  && labels_end doc
  && same_labels (Svg.labels doc) (Spots.label <$> spots_of c)
  && Nat.eqb (Svg.route_segments doc) 0
  && Nat.eqb (Defense.positions_total (Defense.adjusted_layout f c)) 11
  && Nat.eqb (player_circles doc) 6
  && Nat.eqb (line_squares doc) 5
  && bool_decide (Xml.scan doc [] = Some ["svg"]).

(** The tail of a concept holds the lines of its routes and closes the
    document. *)
Definition tail_layers (k : option string) : bool :=
  let s := tail k in
  Svg.closed s
  && Nat.eqb (Svg.route_segments s) (length (routes_of k))
  && bool_decide (Xml.scan s ["svg"] = Some []).

End Layers.

Module Canvas.

(** The viewBox of the header and the rectangle of the field. *)
Definition width : Z := 400.
Definition height : Z := 250.

Definition inside (p : pos) : Prop :=
  0 ≤ p.1 ≤ width ∧ 0 ≤ p.2 ≤ height.

(** The three vertices of the triangle drawn at [p]. *)
Definition vertices (p : pos) : list pos :=
  let '(x, y) := p in [(x, y - 10); (x - 10, y + 8); (x + 10, y + 8)].

(** The corners of the square drawn for a lineman at [p]. *)
Definition square_corners (p : pos) : list pos :=
  let '(x, y) := p in [(x - 8, y - 8); (x - 8 + 16, y - 8 + 16)].

(** The bounding box of the circle of radius 10 drawn at [p]. *)
Definition circle_box (p : pos) : list pos :=
  let '(x, y) := p in [(x - 10, y - 10); (x + 10, y + 10)].

Definition zone_corners (z : Zones.zone) : list pos :=
  [(Zones.x z, Zones.y z); (Zones.x z + Zones.w z, Zones.y z + Zones.h z)].

(** The centre of the pulse and the anchor of its label. *)
Definition spot_points (s : Spots.spot) : list pos :=
  [(Spots.x s, Spots.y s); (Spots.x s, Spots.y s + 30)].

Definition route_ends (r : Routes.route) : list pos := [Routes.from r; Routes.to r].

End Canvas.

(** * Properties *)

(** Closes an equation between closed terms by evaluation. *)
Ltac vm_refl :=
  lazymatch goal with
  | |- ?a = ?b => vm_cast_no_check (@eq_refl _ b)
  end.

(** [Hc : c ∉ l], goal [c ∉ l'] with [l'] a sublist of [l]. *)
Ltac sub_keys Hc :=
  let Hin := fresh in
  intros Hin; apply Hc; revert Hin; rewrite !elem_of_cons, !elem_of_nil; tauto.

(** Splits [H : c ∈ [k1; ...; kn]] into its [n] cases. *)
Ltac key_cases H :=
  rewrite !elem_of_cons, elem_of_nil in H; destruct_or! H; subst.

Section strings.

Lemma append_nil_r s : s +:+ "" = s.
Proof.
  induction s as [|a s IH]; [reflexivity|].
  change (String a (s +:+ "") = String a s). by rewrite IH.
Qed.

Lemma append_assoc s1 s2 s3 : (s1 +:+ s2) +:+ s3 = s1 +:+ (s2 +:+ s3).
Proof.
  induction s1 as [|a s1 IH]; [reflexivity|].
  change (String a ((s1 +:+ s2) +:+ s3) = String a (s1 +:+ (s2 +:+ s3))).
  by rewrite IH.
Qed.

Lemma prefix_app p s : String.prefix p (p +:+ s) = true.
Proof.
  induction p as [|a p IH]; [by destruct s|].
  change (String.prefix (String a p) (String a (p +:+ s)) = true).
  cbn. by destruct (ascii_dec a a).
Qed.

Lemma contains_prefix p s : String.prefix p s = true → Svg.contains p s = true.
Proof. destruct s; cbn [Svg.contains]; by intros ->. Qed.

Lemma contains_app pre p s : Svg.contains p (pre +:+ p +:+ s) = true.
Proof.
  induction pre as [|a pre IH].
  - change ("" +:+ p +:+ s) with (p +:+ s). apply contains_prefix, prefix_app.
  - change (String a pre +:+ p +:+ s) with (String a (pre +:+ p +:+ s)).
    cbn [Svg.contains]. rewrite IH. by destruct (String.prefix _ _).
Qed.

Lemma app_cons a s b : String a s +:+ b = String a (s +:+ b).
Proof. reflexivity. Qed.

Lemma app_not_empty a b : a ≠ "" → a +:+ b ≠ "".
Proof. by destruct a. Qed.

Lemma prefix_cons x p y s :
  String.prefix (String x p) (String y s)
  = if Ascii.eqb x y then String.prefix p s else false.
Proof.
  cbn [String.prefix]. destruct (ascii_dec x y) as [->|Hne].
  - by rewrite Ascii.eqb_refl.
  - by rewrite (proj2 (Ascii.eqb_neq x y) Hne).
Qed.

Lemma prefix_trans p0 p s :
  String.prefix p0 p = true → String.prefix p s = true → String.prefix p0 s = true.
Proof.
  revert p s. induction p0 as [|x p0 IH]; intros p s; [by destruct s|].
  destruct p as [|y p]; [done|]. destruct s as [|z s]; [done|].
  rewrite !prefix_cons.
  destruct (Ascii.eqb x y) eqn:Exy; [|done].
  destruct (Ascii.eqb y z) eqn:Eyz; [|done].
  apply Ascii.eqb_eq in Exy as ->. rewrite Eyz. apply IH.
Qed.

Lemma prefix_opens p0 p :
  String.prefix (String "<" p0) p = true → ∃ r, p = String "<" r.
Proof.
  destruct p as [|y p]; [done|]. rewrite prefix_cons.
  destruct (Ascii.eqb "<" y) eqn:E; [|done]. apply Ascii.eqb_eq in E as <-. eauto.
Qed.

End strings.

(** ** Counting the elements of a concatenation *)

Section counting.

Import Svg.

Lemma before_app c s b : has c s = true → before c (s +:+ b) = before c s.
Proof.
  induction s as [|a s IH]; [done|]. rewrite app_cons. cbn [has before].
  destruct (Ascii.eqb a c); [done|]. intros H. by rewrite IH.
Qed.

(** A pattern whose only [>] is its last character is matched inside the
    first tag of the text. *)
Lemma prefix_stable p s b :
  tag_shaped p = true → has ">" s = true →
  String.prefix p (s +:+ b) = String.prefix p s.
Proof.
  revert s. induction p as [|x p IH]; intros s Hp Hs.
  - by destruct s, b.
  - destruct s as [|y s]; [done|]. rewrite app_cons, !prefix_cons.
    destruct (Ascii.eqb x y) eqn:Exy; [|done].
    apply Ascii.eqb_eq in Exy as ->.
    cbn [tag_shaped has] in Hp, Hs. destruct (Ascii.eqb y ">").
    + destruct p; [|done]. by destruct s, b.
    + by apply IH.
Qed.

Lemma tag_shaped_app n t :
  has ">" n = false → tag_shaped (n +:+ t) = tag_shaped t.
Proof.
  induction n as [|x n IH]; [done|]. rewrite app_cons. cbn [has tag_shaped].
  destruct (Ascii.eqb x ">"); [done|]. exact IH.
Qed.

Lemma prefix_tag_test p :
  tag_shaped p = true → (∃ r, p = String "<" r) → tag_test (String.prefix p).
Proof.
  intros Hp [r ->]. split.
  - apply prefix_opens.
  - intros s b Hs. by apply prefix_stable.
Qed.

Lemma element_prefix name attr s :
  element name attr s = true → String.prefix ("<" +:+ name +:+ " ") s = true.
Proof. unfold element. by destruct (String.prefix _ s). Qed.

Lemma element_tag_test name attr :
  has ">" name = false → tag_test (element name attr).
Proof.
  intros Hn.
  assert (Hp : tag_shaped ("<" +:+ name +:+ " ") = true).
  { change ("<" +:+ name +:+ " ") with (String "<" (name +:+ " ")).
    cbn [tag_shaped]. change (Ascii.eqb "<" ">") with false. cbn iota.
    by rewrite tag_shaped_app. }
  split.
  - intros s Hs%element_prefix. by apply (prefix_opens (name +:+ " ")).
  - intros s b Hs. unfold element.
    by rewrite (prefix_stable _ s b Hp Hs), (before_app _ s b Hs).
Qed.

(** Counting is additive over a text that closes its tags. *)
Lemma count_app test a b :
  tag_test test → closed a = true →
  count test (a +:+ b) = (count test a + count test b)%nat.
Proof.
  intros [Hfire Hread]. induction a as [|c a IH]; [done|].
  rewrite app_cons. cbn [closed count]. intros Ha.
  assert (Htest : test (String c (a +:+ b)) = test (String c a) ∧ closed a = true).
  { destruct (Ascii.eqb c "<") eqn:Ec.
    - destruct (has ">" a) eqn:Eh; [|done]. split; [|done].
      rewrite <- app_cons. apply Hread. cbn [has]. rewrite Eh. by destruct (Ascii.eqb c ">").
    - split; [|done].
      destruct (test (String c (a +:+ b))) eqn:E1.
      { apply Hfire in E1 as [r [= -> _]]. done. }
      destruct (test (String c a)) eqn:E2; [|done].
      apply Hfire in E2 as [r [= -> _]]. done. }
  destruct Htest as [-> Hcl]. rewrite (IH Hcl). lia.
Qed.

(** A test that fires only where [p] starts counts nothing in a text in
    which [p] does not occur. *)
Lemma count_none test p s :
  (∀ t, test t = true → String.prefix p t = true) →
  occurrences p s = 0%nat → count test s = 0%nat.
Proof.
  intros Hp. unfold occurrences. induction s as [|c s IH]; [done|].
  cbn [count]. destruct (String.prefix p (String c s)) eqn:E; [done|].
  intros Hs. rewrite IH by exact Hs.
  destruct (test (String c s)) eqn:Et; [|done]. apply Hp in Et. congruence.
Qed.

Lemma labels_none s : occurrences "<text " s = 0%nat → labels s = [].
Proof.
  unfold occurrences. induction s as [|c s IH]; [done|].
  cbn [count labels]. destruct (String.prefix "<text " (String c s)); [done|].
  intros Hs. by rewrite IH.
Qed.

End counting.

(** ** The layout table and the adjustment *)

Section defense.

Import Defense.

(** The dict literal, evaluated: one object per formation. *)
Lemma base_positions_eq :
  base_positions =
    State (list_to_map [("4-3", 0%nat); ("3-4", 1%nat); ("nickel", 2%nat); ("dime", 3%nat)])
          (list_to_map [(0%nat, layout_4_3); (1%nat, layout_3_4);
                        (2%nat, layout_nickel); (3%nat, layout_dime)]).
Proof. vm_refl. Qed.

Lemma table_unknown f :
  f ∉ known_formations → st_table base_positions !! f = None.
Proof.
  intros Hf. rewrite base_positions_eq. cbn [st_table].
  apply not_elem_of_list_to_map_1. exact Hf.
Qed.

Lemma table_known f :
  is_Some (st_table base_positions !! f) → f ∈ known_formations.
Proof.
  intros Hs. destruct (decide (f ∈ known_formations)) as [|Hn]; [done|].
  rewrite (table_unknown _ Hn) in Hs. by destruct Hs.
Qed.

Lemma known_formation_cases (P : string → Prop) f :
  f ∈ known_formations → P "4-3" → P "3-4" → P "nickel" → P "dime" → P f.
Proof. unfold known_formations. intros Hf. key_cases Hf; auto. Qed.

Lemma table_listed f :
  f ∈ known_formations → is_Some (st_table base_positions !! f).
Proof.
  intros Hf. pattern f. apply (known_formation_cases _ f Hf); eexists; vm_compute; reflexivity.
Qed.

Lemma base_layout_unknown f : f ∉ known_formations → base_layout f = layout_4_3.
Proof.
  intros Hf. unfold base_layout.
  by rewrite (not_elem_of_list_to_map_1 (M := gmap string) base_layouts f Hf).
Qed.

Lemma lookup_layout_unknown f :
  f ∉ known_formations →
  lookup_layout f base_positions = lookup_layout "4-3" base_positions.
Proof.
  intros Hf. unfold lookup_layout. rewrite (table_unknown f Hf).
  by destruct (st_table base_positions !! "4-3").
Qed.

(** The lookup of the layout returns for every key. *)
Lemma lookup_layout_total f : is_Some (lookup_layout f base_positions).
Proof.
  destruct (decide (f ∈ known_formations)) as [Hf|Hf].
  - pattern f. apply (known_formation_cases _ f Hf); eexists; vm_compute; reflexivity.
  - rewrite (lookup_layout_unknown f Hf). eexists. vm_compute. reflexivity.
Qed.

Lemma prepare_unknown f c :
  f ∉ known_formations → prepare f c = prepare "4-3" c.
Proof. intros Hf. unfold prepare. by rewrite (lookup_layout_unknown f Hf). Qed.

Lemma prepare_eq f c a :
  lookup_layout f base_positions = Some a →
  prepare f c = Some (a, adjust c a base_positions).
Proof. intros Ha. unfold prepare. by rewrite Ha. Qed.

Lemma drawn_layout_unknown f c :
  f ∉ known_formations → drawn_layout f c = drawn_layout "4-3" c.
Proof. intros Hf. unfold drawn_layout. by rewrite (prepare_unknown f c Hf). Qed.

Lemma drawn_layout_known f c :
  f ∈ known_formations → drawn_layout f c = Some (adjusted_layout f c).
Proof.
  intros Hf. unfold drawn_layout, prepare, adjust, adjusted_layout.
  destruct (safety_adjustment c) as [v|];
    pattern f; apply (known_formation_cases _ f Hf); vm_refl.
Qed.

(** The drawing loops read the base layout of the formation with the
    safety group the coverage asks for. *)
Lemma drawn_layout_eq f c : drawn_layout f c = Some (adjusted_layout f c).
Proof.
  destruct (decide (f ∈ known_formations)) as [Hf|Hf].
  - by apply drawn_layout_known.
  - rewrite (drawn_layout_unknown f c Hf), drawn_layout_known
      by apply list_elem_of_here.
    unfold adjusted_layout. rewrite (base_layout_unknown f Hf).
    by destruct (safety_adjustment c).
Qed.

Lemma defensive_svg_eq f c :
  generate_defensive_formation_svg f c = Some (draw (adjusted_layout f c)).
Proof. unfold generate_defensive_formation_svg. by rewrite drawn_layout_eq. Qed.

(** A store into one layout dict leaves the entries bound to the other
    dicts as they were. *)
Lemma entry_setitem_ne st a k v key :
  st_table st !! key ≠ Some a → entry (setitem a k v st) key = entry st key.
Proof.
  intros Hne. unfold entry, setitem. cbn [st_table st_heap].
  destruct (st_table st !! key) as [a'|] eqn:E; [|done].
  cbn. rewrite lookup_alter_ne; [done|]. congruence.
Qed.

Lemma entry_adjust_ne st c a key :
  st_table st !! key ≠ Some a → entry (adjust c a st) key = entry st key.
Proof.
  intros Hne. unfold adjust.
  destruct (safety_adjustment c); [by apply entry_setitem_ne|done].
Qed.

Lemma table_adjust st c a : st_table (adjust c a st) = st_table st.
Proof. unfold adjust. by destruct (safety_adjustment c). Qed.

Lemma adjusted_layout_frame f c role :
  role ≠ "S" → adjusted_layout f c !! role = base_layout f !! role.
Proof.
  intros Hr. unfold adjusted_layout.
  destruct (safety_adjustment c); [by rewrite lookup_insert_ne|done].
Qed.

Lemma adjusted_layout_delete f c :
  delete "S" (adjusted_layout f c) = delete "S" (base_layout f).
Proof.
  unfold adjusted_layout.
  destruct (safety_adjustment c); [by rewrite delete_insert_eq|done].
Qed.

(** Under a recognised coverage the safety group is the one of the
    coverage, whatever the layout was. *)
Lemma adjusted_layout_safeties f c v :
  safety_adjustment c = Some v → adjusted_layout f c !! "S" = Some v.
Proof. intros Hv. unfold adjusted_layout. by rewrite Hv, lookup_insert_eq. Qed.

Lemma safety_adjustment_recognised c :
  c ∈ (two_deep ++ single_high ++ ["cover_0"])%list → is_Some (safety_adjustment c).
Proof.
  intros Hc. unfold two_deep, single_high in Hc. cbn [app] in Hc.
  key_cases Hc; eexists; vm_compute; reflexivity.
Qed.

Lemma safety_adjustment_none c :
  c ∉ two_deep → c ∉ single_high → c ≠ "cover_0" → safety_adjustment c = None.
Proof.
  intros H2 H1 H0. unfold safety_adjustment.
  by rewrite !bool_decide_eq_false_2.
Qed.

End defense.

(** ** Keys that the tables do not list *)

Section unknown_keys.

Import Defense Keys.

Lemma zones_unknown c : c ∉ known_coverages → Zones.zones !! c = None.
Proof.
  intros Hc. apply not_elem_of_list_to_map_1. cbn [fmap list_fmap fst].
  unfold known_coverages in Hc. sub_keys Hc.
Qed.

Lemma spots_unknown c : c ∉ known_coverages → Spots.spots !! c = None.
Proof.
  intros Hc. apply not_elem_of_list_to_map_1. cbn [fmap list_fmap fst].
  unfold known_coverages in Hc. sub_keys Hc.
Qed.

Lemma adjustment_unknown c : c ∉ known_coverages → safety_adjustment c = None.
Proof.
  intros Hc. unfold known_coverages in Hc.
  apply safety_adjustment_none; [unfold two_deep|unfold single_high|];
    sub_keys Hc.
Qed.

Lemma routes_unknown k : k ∉ known_concepts → Routes.routes !! k = None.
Proof. intros Hk. by apply not_elem_of_list_to_map_1. Qed.

Lemma empty_coverage_unknown : "" ∉ known_coverages.
Proof. intros H. unfold known_coverages in H. key_cases H; discriminate. Qed.

(** A coverage that the zone and hotspot tables and the three adjustment
    groups all leave out is none of the known ones. *)
Lemma coverage_unlisted c :
  Zones.zones !! c = None → Spots.spots !! c = None →
  safety_adjustment c = None → c ∉ known_coverages.
Proof.
  intros Hz Hs Ha Hc. unfold known_coverages in Hc.
  key_cases Hc;
    first [ by vm_compute in Hz | by vm_compute in Hs | by vm_compute in Ha ].
Qed.

(** The route layer of a key without routes is empty. *)
Lemma route_svg_unknown k : Routes.routes !! k = None → generate_route_svg k = "".
Proof. intros Hk. unfold generate_route_svg. by rewrite Hk. Qed.

Lemma zones_svg_unknown c :
  Zones.zones !! c = None → generate_coverage_zones_svg c = "".
Proof. intros Hc. unfold generate_coverage_zones_svg. by rewrite Hc. Qed.

Lemma spots_svg_unknown c :
  Spots.spots !! c = None → generate_soft_spots_svg c = "".
Proof. intros Hc. unfold generate_soft_spots_svg. by rewrite Hc. Qed.

(** The document: the page, then the route layer and the closing tag. *)
Lemma diagram_eq f c k :
  generate_play_diagram f c k = Some (page f c +:+ tail k).
Proof.
  unfold generate_play_diagram, page, tail.
  rewrite defensive_svg_eq. cbn [mbind option_bind].
  f_equal. destruct k as [[|a k]|]; cbn [truthy route_layer].
  - by rewrite (route_svg_unknown "") by vm_refl.
  - by rewrite append_assoc.
  - done.
Qed.

Lemma diagram_total f c k : is_Some (generate_play_diagram f c k).
Proof. rewrite diagram_eq. by eexists. Qed.

Lemma diagram_unknown_formation f c k :
  f ∉ known_formations → generate_play_diagram f c k = generate_play_diagram "4-3" c k.
Proof.
  intros Hf. rewrite !diagram_eq. unfold page, adjusted_layout.
  by rewrite (base_layout_unknown f Hf).
Qed.

Lemma diagram_unknown_concept f c k :
  Routes.routes !! k = None →
  generate_play_diagram f c (Some k) = generate_play_diagram f c None.
Proof.
  intros Hk. rewrite !diagram_eq. unfold tail. cbn [route_layer].
  by rewrite (route_svg_unknown k Hk).
Qed.

Lemma rep_formation_known f : rep_formation f ∈ known_formations.
Proof.
  unfold rep_formation. case_bool_decide; [done|]. apply list_elem_of_here.
Qed.

Lemma rep_coverage_reps c : rep_coverage c ∈ coverage_reps.
Proof.
  unfold rep_coverage, coverage_reps. case_bool_decide.
  - by apply list_elem_of_further.
  - apply list_elem_of_here.
Qed.

Lemma rep_concept_reps k : rep_concept k ∈ concept_reps.
Proof.
  unfold rep_concept, concept_reps. destruct k as [s|]; [|apply list_elem_of_here].
  case_bool_decide; [|apply list_elem_of_here].
  apply list_elem_of_further, list_elem_of_fmap. eauto.
Qed.

Lemma base_layout_rep f : base_layout f = base_layout (rep_formation f).
Proof.
  unfold rep_formation. case_bool_decide as Hf; [done|].
  rewrite (base_layout_unknown f Hf). vm_refl.
Qed.

Lemma adjusted_layout_rep f c :
  adjusted_layout f c = adjusted_layout (rep_formation f) (rep_coverage c).
Proof.
  unfold adjusted_layout. rewrite <- base_layout_rep.
  unfold rep_coverage. case_bool_decide as Hc; [done|].
  by rewrite (adjustment_unknown c Hc), (adjustment_unknown "" empty_coverage_unknown).
Qed.

(** A check that passes on the representatives passes on every page it
    is asked about. *)
Lemma for_all_sound cs P f c :
  for_all cs P = true → f ∈ known_formations → c ∈ cs → P f c = true.
Proof.
  unfold for_all. rewrite forallb_forall. intros HP Hf Hc.
  specialize (HP f (proj1 (list_elem_of_In _ _) Hf)).
  rewrite forallb_forall in HP.
  exact (HP c (proj1 (list_elem_of_In _ _) Hc)).
Qed.

End unknown_keys.

(** ** The pages and tails of every key *)

Section checks.

Import Defense Keys.

Lemma page_rep f c : page f c = page (rep_formation f) (rep_coverage c).
Proof.
  unfold page. rewrite (adjusted_layout_rep f c).
  unfold rep_coverage. case_bool_decide as Hc; [done|].
  rewrite (zones_svg_unknown c), (spots_svg_unknown c)
    by auto using zones_unknown, spots_unknown.
  by rewrite (zones_svg_unknown ""), (spots_svg_unknown "")
    by auto using zones_unknown, spots_unknown, empty_coverage_unknown.
Qed.

Lemma tail_rep k : tail k = tail (rep_concept k).
Proof.
  unfold tail. destruct k as [s|]; [|done]. cbn [rep_concept route_layer].
  case_bool_decide as Hk; [done|]. cbn [route_layer].
  by rewrite (route_svg_unknown s) by by apply routes_unknown.
Qed.

Lemma page_ok_rep f c :
  Verdict.page_ok f c = Verdict.page_ok (rep_formation f) (rep_coverage c).
Proof. unfold Verdict.page_ok. by rewrite (page_rep f c), (adjusted_layout_rep f c). Qed.

Lemma page_sparse_rep f c :
  Verdict.page_sparse f c = Verdict.page_sparse (rep_formation f) (rep_coverage c).
Proof. unfold Verdict.page_sparse. by rewrite (page_rep f c). Qed.

(** 4 formations and 12 coverages: 48 pages. *)
Lemma page_ok_reps : for_all coverage_reps Verdict.page_ok = true.
Proof. vm_refl. Qed.

Lemma page_sparse_reps : for_all [""] Verdict.page_sparse = true.
Proof. vm_refl. Qed.

Lemma tail_ok_reps : forallb Verdict.tail_ok concept_reps = true.
Proof. vm_refl. Qed.

Lemma page_ok_every f c : Verdict.page_ok f c = true.
Proof.
  rewrite page_ok_rep.
  apply (for_all_sound coverage_reps);
    auto using page_ok_reps, rep_formation_known, rep_coverage_reps.
Qed.

Lemma page_sparse_every f c : c ∉ known_coverages → Verdict.page_sparse f c = true.
Proof.
  intros Hc. rewrite page_sparse_rep.
  apply (for_all_sound [""]); auto using page_sparse_reps, rep_formation_known.
  unfold rep_coverage. rewrite bool_decide_eq_false_2 by done.
  apply list_elem_of_here.
Qed.

Lemma tail_ok_every k : Verdict.tail_ok k = true.
Proof.
  pose proof tail_ok_reps as H. rewrite forallb_forall in H.
  unfold Verdict.tail_ok. rewrite tail_rep.
  apply (H (rep_concept k)), list_elem_of_In, rep_concept_reps.
Qed.

(** The tail opens no polygon, rectangle, circle or text element. *)
Lemma tail_plain k :
  Svg.occurrences "<polygon " (tail k) = 0%nat
  ∧ Svg.occurrences "<rect " (tail k) = 0%nat
  ∧ Svg.occurrences "<circle " (tail k) = 0%nat
  ∧ Svg.occurrences "<text " (tail k) = 0%nat.
Proof.
  pose proof (tail_ok_every k) as H. unfold Verdict.tail_ok in H.
  repeat (apply andb_prop in H as [H ?]).
  repeat split; by apply Nat.eqb_eq.
Qed.

Lemma page_closed f c : Svg.closed (page f c) = true.
Proof.
  pose proof (page_ok_every f c) as H. unfold Verdict.page_ok in H.
  by repeat (apply andb_prop in H as [H _]).
Qed.

(** A tag test that fires only on elements that the tail does not have
    counts in the document what it counts in the page. *)
Lemma count_document test p f c k :
  Svg.tag_test test →
  (∀ t, test t = true → String.prefix p t = true) →
  Svg.occurrences p (tail k) = 0%nat →
  Svg.count test (page f c +:+ tail k) = Svg.count test (page f c).
Proof.
  intros Htest Hp Hk.
  rewrite (count_app test); [|done|apply page_closed].
  rewrite (count_none test p (tail k) Hp Hk). lia.
Qed.

Lemma markers_document fill f c k :
  Svg.markers fill (page f c +:+ tail k) = Svg.markers fill (page f c).
Proof.
  unfold Svg.markers. apply (count_document _ "<polygon ").
  - by apply element_tag_test.
  - apply element_prefix.
  - apply tail_plain.
Qed.

Lemma polygon_document p f c k :
  Svg.tag_shaped p = true → String.prefix "<polygon " p = true →
  Svg.occurrences p (page f c +:+ tail k) = Svg.occurrences p (page f c).
Proof.
  intros Hshape Hp. unfold Svg.occurrences. apply (count_document _ "<polygon ").
  - apply prefix_tag_test; [done|]. by apply (prefix_opens "polygon ").
  - intros t. by apply prefix_trans.
  - apply tail_plain.
Qed.

(** The markers of a document, read off its page. *)
Lemma document_markers f c k doc :
  generate_play_diagram f c k = Some doc →
  let d := adjusted_layout f c in
  doc ≠ ""
  ∧ Svg.defensive_markers doc = positions_total d
  ∧ Svg.occurrences "<polygon " doc = S (positions_total d)
  ∧ Svg.markers S_fill doc = length (get d "S")
  ∧ Forall (λ p, Svg.occurrences (triangle S_fill p) doc = 1%nat) (get d "S").
Proof.
  rewrite diagram_eq. intros [= <-] d.
  pose proof (page_ok_every f c) as H. unfold Verdict.page_ok in H.
  fold d in H. cbn zeta in H.
  apply andb_prop in H as [H Hall]. apply andb_prop in H as [H HS%Nat.eqb_eq].
  apply andb_prop in H as [H Hpoly%Nat.eqb_eq].
  apply andb_prop in H as [H Hdef%Nat.eqb_eq].
  apply andb_prop in H as [_ Hne%negb_true_iff%String.eqb_neq].
  split; [by apply app_not_empty|].
  split; [unfold Svg.defensive_markers in *; by rewrite !markers_document|].
  split; [by rewrite polygon_document|].
  split; [by rewrite markers_document|].
  apply Forall_forall. intros p Hp%list_elem_of_In.
  rewrite forallb_forall in Hall. specialize (Hall p Hp). cbn zeta in Hall.
  apply andb_prop in Hall as [Hall Hone%Nat.eqb_eq].
  apply andb_prop in Hall as [Hshape Hpre].
  by rewrite polygon_document.
Qed.

(** The document of a coverage that no table lists has no zone overlay,
    no hotspot and no label. *)
Lemma document_sparse f c k doc :
  c ∉ known_coverages →
  generate_play_diagram f c k = Some doc →
  Svg.zone_overlays doc = 0%nat ∧ Svg.hotspots doc = 0%nat ∧ Svg.labels doc = [].
Proof.
  intros Hc. rewrite diagram_eq. intros [= <-].
  pose proof (page_sparse_every f c Hc) as H. unfold Verdict.page_sparse in H.
  cbn zeta in H.
  apply andb_prop in H as [H Htext%Nat.eqb_eq].
  apply andb_prop in H as [Hzone%Nat.eqb_eq Hspot%Nat.eqb_eq].
  split; [|split].
  - unfold Svg.zone_overlays in *. rewrite <- Hzone.
    apply (count_document _ "<rect ");
      [by apply element_tag_test|apply element_prefix|apply tail_plain].
  - unfold Svg.hotspots in *. rewrite <- Hspot.
    apply (count_document _ "<circle ");
      [by apply element_tag_test|apply element_prefix|apply tail_plain].
  - apply labels_none. unfold Svg.occurrences in *. rewrite <- Htext.
    apply (count_document _ "<text ").
    + by apply prefix_tag_test; [|eexists].
    + done.
    + apply tail_plain.
Qed.

End checks.

(** ** Sample renderings *)

Section samples.

Example triangle_120_40 :
  Defense.triangle Defense.S_fill (120, 40)
  = q "<polygon points='120,30 110,48 130,48' fill='#ff8c00' stroke='white' stroke-width='2' />".
Proof. vm_refl. Qed.

Example center_square :
  Offense.marker ("C", (200, 150))
  = q "<rect x='192' y='142' width='16' height='16' fill='#4169e1' stroke='white' stroke-width='2' />".
Proof. vm_refl. Qed.

Example zones_cover_1 :
  generate_coverage_zones_svg "cover_1"
  = q "<rect x='50' y='0' width='300' height='60' fill='rgba(255,165,0,0.3)' />".
Proof. vm_refl. Qed.

Example routes_curl_flat :
  generate_route_svg "curl_flat"
  = q (nl +:+
  "        <line x1='50' y1='150' x2='70' y2='80' stroke='#00bfff' stroke-width='3' marker-end='url(#arrowhead)' />" +:+ nl +:+
  "        " +:+ nl +:+
  "        <line x1='100' y1='150' x2='50' y2='110' stroke='#00bfff' stroke-width='3' marker-end='url(#arrowhead)' />" +:+ nl +:+
  "        ").
Proof. vm_refl. Qed.

Example defense_dime_cover_0 :
  generate_defensive_formation_svg "dime" "cover_0"
  = Some (q (
  "<polygon points='155,125 145,143 165,143' fill='#dc143c' stroke='white' stroke-width='2' />" +:+
  "<polygon points='185,125 175,143 195,143' fill='#dc143c' stroke='white' stroke-width='2' />" +:+
  "<polygon points='215,125 205,143 225,143' fill='#dc143c' stroke='white' stroke-width='2' />" +:+
  "<polygon points='245,125 235,143 255,143' fill='#dc143c' stroke='white' stroke-width='2' />" +:+
  "<polygon points='200,95 190,113 210,113' fill='#ff6347' stroke='white' stroke-width='2' />" +:+
  "<polygon points='50,90 40,108 60,108' fill='#ff4500' stroke='white' stroke-width='2' />" +:+
  "<polygon points='350,90 340,108 360,108' fill='#ff4500' stroke='white' stroke-width='2' />" +:+
  "<polygon points='100,95 90,113 110,113' fill='#ff4500' stroke='white' stroke-width='2' />" +:+
  "<polygon points='300,95 290,113 310,113' fill='#ff4500' stroke='white' stroke-width='2' />" +:+
  "<polygon points='180,85 170,103 190,103' fill='#ff8c00' stroke='white' stroke-width='2' />" +:+
  "<polygon points='220,85 210,103 230,103' fill='#ff8c00' stroke='white' stroke-width='2' />")).
Proof. vm_refl. Qed.

End samples.

(** * The claims of the specification *)

Section claims.

Import Defense Keys.

(** C1.  For every formation key that the layout table lists, every
    coverage key and every concept argument, [generate_play_diagram]
    returns a document that is not empty, contains the field layer, and
    contains exactly as many defensive triangular markers as the role
    groups DL, LB, CB, SLOT_CB and S of the formation's layout hold
    positions, the safety group being the coverage-adjusted one (which is
    the layout the drawing loops read).  The one other polygon of the
    document is the arrowhead that the header defines. *)
Theorem C1_known_formation_marker_count (f c : string) (k : option string) :
  is_Some (st_table base_positions !! f) →
  ∃ doc,
    generate_play_diagram f c k = Some doc
    ∧ doc ≠ ""
    ∧ Svg.contains generate_field_svg doc = true
    ∧ drawn_layout f c = Some (adjusted_layout f c)
    ∧ Svg.defensive_markers doc = positions_total (adjusted_layout f c)
    ∧ Svg.occurrences "<polygon " doc = S (positions_total (adjusted_layout f c)).
Proof.
  intros Hf%table_known.
  destruct (diagram_total f c k) as [doc Hdoc]. exists doc.
  destruct (document_markers f c k doc Hdoc) as (Hne & Hdef & Hpoly & _).
  split; [exact Hdoc|]. split; [exact Hne|].
  split.
  { rewrite diagram_eq in Hdoc. injection Hdoc as <-.
    unfold page, Diagram.body. rewrite !append_assoc. apply contains_app. }
  split; [apply drawn_layout_eq|]. by split.
Qed.

Lemma C1_witness :
  ∃ doc,
    generate_play_diagram "nickel" "cover_3" None = Some doc
    ∧ doc ≠ ""
    ∧ Svg.contains generate_field_svg doc = true
    ∧ drawn_layout "nickel" "cover_3" = Some (adjusted_layout "nickel" "cover_3")
    ∧ Svg.defensive_markers doc = positions_total (adjusted_layout "nickel" "cover_3")
    ∧ Svg.occurrences "<polygon " doc
      = S (positions_total (adjusted_layout "nickel" "cover_3")).
Proof.
  apply (C1_known_formation_marker_count "nickel" "cover_3" None).
  exists 2%nat. vm_compute. reflexivity.
Defined.

(** C2.  [generate_play_diagram("4-3", "cover_2")], called without a
    concept, gives a document with exactly 4 defensive-line markers, 3
    linebacker markers, 2 cornerback markers and 2 safety markers, the
    safeties at the cover-2 coordinates (120,40) and (280,40); 4 zone
    overlay rectangles, those of the four zones of the table, which are
    tagged deep, deep, flat, flat; 3 hotspots labelled "Hole Shot",
    "Corner", "Corner"; and no route segment. *)
Theorem C2_example_4_3_cover_2 :
  ∃ doc zs,
    generate_play_diagram "4-3" "cover_2" None = Some doc
    ∧ Zones.zones !! "cover_2" = Some zs
    ∧ Svg.markers DL_fill doc = 4%nat
    ∧ Svg.markers LB_fill doc = 3%nat
    ∧ Svg.markers CB_fill doc = 2%nat
    ∧ Svg.markers S_fill doc = 2%nat
    ∧ (d ← drawn_layout "4-3" "cover_2"; d !! "S") = Some [(120, 40); (280, 40)]
    ∧ Svg.occurrences (triangle S_fill (120, 40)) doc = 1%nat
    ∧ Svg.occurrences (triangle S_fill (280, 40)) doc = 1%nat
    ∧ Svg.zone_overlays doc = 4%nat
    ∧ Zones.type <$> zs = ["deep"; "deep"; "flat"; "flat"]
    ∧ Forall (λ z, Svg.occurrences (Zones.rect z) doc = 1%nat) zs
    ∧ Svg.hotspots doc = 3%nat
    ∧ Svg.labels doc = ["Hole Shot"; "Corner"; "Corner"]
    ∧ Svg.route_segments doc = 0%nat.
Proof.
  do 2 eexists.
  split; [vm_compute; reflexivity|].
  split; [vm_compute; reflexivity|].
  repeat split; try vm_refl.
  repeat constructor; vm_refl.
Qed.

(** C3.  [generate_play_diagram("dime", "cover_0", "mesh")] gives a
    document whose 2 safety markers are at the cover_0 box coordinates
    (180,95) and (220,95), with no zone overlay rectangle, exactly one
    hotspot, labelled "Deep - no help!", and exactly 2 route segments,
    the lines of the two routes of the mesh concept, both typed
    "cross". *)
Theorem C3_example_dime_cover_0_mesh :
  ∃ doc rs,
    generate_play_diagram "dime" "cover_0" (Some "mesh") = Some doc
    ∧ Routes.routes !! "mesh" = Some rs
    ∧ (d ← drawn_layout "dime" "cover_0"; d !! "S") = Some [(180, 95); (220, 95)]
    ∧ Svg.markers S_fill doc = 2%nat
    ∧ Svg.occurrences (triangle S_fill (180, 95)) doc = 1%nat
    ∧ Svg.occurrences (triangle S_fill (220, 95)) doc = 1%nat
    ∧ Svg.zone_overlays doc = 0%nat
    ∧ Svg.hotspots doc = 1%nat
    ∧ Svg.labels doc = ["Deep - no help!"]
    ∧ Svg.route_segments doc = 2%nat
    ∧ Routes.type <$> rs = ["cross"; "cross"]
    ∧ Forall (λ r, Svg.occurrences (Routes.line r) doc = 1%nat) rs.
Proof.
  do 2 eexists.
  split; [vm_compute; reflexivity|].
  split; [vm_compute; reflexivity|].
  repeat split; try vm_refl.
  repeat constructor; vm_refl.
Qed.

(** C4.  For a formation key that the layout table does not list, the
    lookup of the layout does not fail: it gives the layout object of
    "4-3".  With every coverage key and every concept argument the call
    returns, and its document is the one of "4-3" with the same coverage
    and concept. *)
Theorem C4_unknown_formation_is_default (f c : string) (k : option string) :
  st_table base_positions !! f = None →
  is_Some (lookup_layout f base_positions)
  ∧ lookup_layout f base_positions = lookup_layout "4-3" base_positions
  ∧ is_Some (generate_play_diagram f c k)
  ∧ generate_play_diagram f c k = generate_play_diagram "4-3" c k.
Proof.
  intros Hnone.
  assert (Hf : f ∉ known_formations).
  { intros [v Hv]%table_listed. congruence. }
  split; [apply lookup_layout_total|].
  split; [by apply lookup_layout_unknown|].
  split; [apply diagram_total|].
  by apply diagram_unknown_formation.
Qed.

Lemma C4_witness :
  is_Some (lookup_layout "5-2" base_positions)
  ∧ lookup_layout "5-2" base_positions = lookup_layout "4-3" base_positions
  ∧ is_Some (generate_play_diagram "5-2" "cover_3" (Some "smash"))
  ∧ generate_play_diagram "5-2" "cover_3" (Some "smash")
    = generate_play_diagram "4-3" "cover_3" (Some "smash").
Proof.
  apply (C4_unknown_formation_is_default "5-2" "cover_3" (Some "smash")).
  vm_compute. reflexivity.
Defined.

(** C5.  For a coverage key that is in neither the zone table, nor the
    hotspot table, nor one of the three safety-adjustment groups, the
    zone-overlay layer and the hotspot layer are empty and the drawing
    loops read the base layout of the formation unchanged.  The call
    returns a document made of the other layers alone: it has no zone
    overlay, no hotspot and no label, and its safety markers are exactly
    those at the safety positions of the base layout. *)
Theorem C5_unknown_coverage_is_sparse (f c : string) (k : option string) :
  Zones.zones !! c = None →
  Spots.spots !! c = None →
  c ∉ two_deep → c ∉ single_high → c ≠ "cover_0" →
  generate_coverage_zones_svg c = ""
  ∧ generate_soft_spots_svg c = ""
  ∧ drawn_layout f c = Some (base_layout f)
  ∧ ∃ doc,
      generate_play_diagram f c k = Some doc
      ∧ doc = Diagram.body generate_field_svg "" ""
                (generate_offensive_formation_svg "pro") (draw (base_layout f))
              +:+ route_layer k +:+ Diagram.close
      ∧ Svg.zone_overlays doc = 0%nat
      ∧ Svg.hotspots doc = 0%nat
      ∧ Svg.labels doc = []
      ∧ Svg.markers S_fill doc = length (get (base_layout f) "S")
      ∧ Forall (λ p, Svg.occurrences (triangle S_fill p) doc = 1%nat)
          (get (base_layout f) "S").
Proof.
  intros Hz Hs H2 H1 H0.
  pose proof (safety_adjustment_none c H2 H1 H0) as Ha.
  pose proof (coverage_unlisted c Hz Hs Ha) as Hc.
  assert (Hd : adjusted_layout f c = base_layout f).
  { unfold adjusted_layout. by rewrite Ha. }
  split; [by apply zones_svg_unknown|].
  split; [by apply spots_svg_unknown|].
  split; [by rewrite drawn_layout_eq, Hd|].
  destruct (diagram_total f c k) as [doc Hdoc]. exists doc.
  split; [exact Hdoc|].
  split.
  { rewrite diagram_eq in Hdoc. unfold page, tail in Hdoc.
    rewrite Hd, zones_svg_unknown, spots_svg_unknown in Hdoc by done.
    congruence. }
  destruct (document_sparse f c k doc Hc Hdoc) as (Hzone & Hspot & Hlabel).
  destruct (document_markers f c k doc Hdoc) as (_ & _ & _ & Hn & Hall).
  rewrite Hd in Hn, Hall. by repeat split.
Qed.

Lemma C5_witness :
  generate_coverage_zones_svg "prevent" = ""
  ∧ generate_soft_spots_svg "prevent" = ""
  ∧ drawn_layout "nickel" "prevent" = Some (base_layout "nickel")
  ∧ ∃ doc,
      generate_play_diagram "nickel" "prevent" None = Some doc
      ∧ doc = Diagram.body generate_field_svg "" ""
                (generate_offensive_formation_svg "pro") (draw (base_layout "nickel"))
              +:+ route_layer None +:+ Diagram.close
      ∧ Svg.zone_overlays doc = 0%nat
      ∧ Svg.hotspots doc = 0%nat
      ∧ Svg.labels doc = []
      ∧ Svg.markers S_fill doc = length (get (base_layout "nickel") "S")
      ∧ Forall (λ p, Svg.occurrences (triangle S_fill p) doc = 1%nat)
          (get (base_layout "nickel") "S").
Proof.
  apply (C5_unknown_coverage_is_sparse "nickel" "prevent" None).
  - vm_compute. reflexivity.
  - vm_compute. reflexivity.
  - apply (bool_decide_unpack _). vm_compute. exact I.
  - apply (bool_decide_unpack _). vm_compute. exact I.
  - apply (bool_decide_unpack _). vm_compute. exact I.
Defined.

(** C6.  For a concept key that the routes table does not list, the
    route layer is empty and the call returns the very string that the
    call with the same formation and coverage and no concept returns. *)
Theorem C6_unknown_concept_is_no_concept (f c k : string) :
  Routes.routes !! k = None →
  generate_route_svg k = ""
  ∧ is_Some (generate_play_diagram f c (Some k))
  ∧ generate_play_diagram f c (Some k) = generate_play_diagram f c None.
Proof.
  intros Hk.
  split; [by apply route_svg_unknown|].
  split; [apply diagram_total|].
  by apply diagram_unknown_concept.
Qed.

Lemma C6_witness :
  generate_route_svg "screen" = ""
  ∧ is_Some (generate_play_diagram "3-4" "cover_1" (Some "screen"))
  ∧ generate_play_diagram "3-4" "cover_1" (Some "screen")
    = generate_play_diagram "3-4" "cover_1" None.
Proof.
  apply (C6_unknown_concept_is_no_concept "3-4" "cover_1" "screen").
  vm_compute. reflexivity.
Defined.

(** C7.  For every formation, coverage and concept argument the call
    returns a document that is, in this order: the header, the field
    background, the zone overlays, the hotspots, the offensive markers,
    the defensive markers, then the route segments of the concept key
    when one is supplied, and the closing tag; only fixed white space
    stands between two layers. *)
Theorem C7_layers_in_fixed_order (f c : string) (k : option string) :
  ∃ defense doc,
    generate_defensive_formation_svg f c = Some defense
    ∧ generate_play_diagram f c k = Some doc
    ∧ doc = Diagram.header
            +:+ generate_field_svg +:+ Diagram.sep
            +:+ generate_coverage_zones_svg c +:+ Diagram.sep
            +:+ generate_soft_spots_svg c +:+ Diagram.sep
            +:+ generate_offensive_formation_svg "pro" +:+ Diagram.sep
            +:+ defense +:+ Diagram.footer
            +:+ route_layer k +:+ Diagram.close
    ∧ Svg.in_order
        [ generate_field_svg; generate_coverage_zones_svg c;
          generate_soft_spots_svg c; generate_offensive_formation_svg "pro";
          defense; route_layer k ] doc.
Proof.
  exists (draw (adjusted_layout f c)). eexists.
  split; [apply defensive_svg_eq|].
  split; [apply diagram_eq|].
  unfold page, tail, Diagram.body. rewrite !append_assoc.
  split; [reflexivity|].
  apply (Svg.in_order_cons Diagram.header).
  do 4 apply (Svg.in_order_cons Diagram.sep).
  apply (Svg.in_order_cons Diagram.footer).
  apply Svg.in_order_nil.
Qed.

(** C8, as the specification states it, fails on the table half: the
    call for "4-3" with "cover_2" binds [positions] to the dict that
    [base_positions] holds under "4-3" and assigns the two-deep safeties
    into it, so the entry of the table no longer carries the safeties
    the literal gave it. *)
Lemma C8_table_entry_is_overwritten :
  (∃ a st,
     prepare "4-3" "cover_2" = Some (a, st)
     ∧ (d ← entry base_positions "4-3"; d !! "S") = Some [(150, 60); (250, 60)]
     ∧ (d ← entry st "4-3"; d !! "S") = Some [(120, 40); (280, 40)])
  ∧ ¬ table_preserved "4-3" "cover_2".
Proof.
  split.
  - do 2 eexists. split; [vm_compute; reflexivity|]. split; vm_refl.
  - intros Hp.
    destruct (lookup_layout_total "4-3") as [a Ha].
    specialize (Hp _ _ (prepare_eq "4-3" "cover_2" a Ha) "4-3").
    vm_compute in Ha. injection Ha as <-.
    apply (f_equal (λ o, d ← o; d !! "S")) in Hp.
    vm_compute in Hp. discriminate Hp.
Qed.

(** C8, amended.  For every formation and coverage key the drawing loops
    read a layout whose DL, LB, CB and SLOT_CB sequences, and every group
    other than "S", are those of the base layout of the formation.  The
    adjustment is an assignment into the looked-up layout dict of the
    table that the call has built: it keeps the binding of every
    formation key, and every entry bound to another dict reads as the
    literal built it. *)
Theorem C8_adjustment_changes_only_safeties (f c : string) :
  ∃ a st d,
    prepare f c = Some (a, st)
    ∧ st_heap st !! a = Some d
    ∧ d !! "DL" = base_layout f !! "DL"
    ∧ d !! "LB" = base_layout f !! "LB"
    ∧ d !! "CB" = base_layout f !! "CB"
    ∧ d !! "SLOT_CB" = base_layout f !! "SLOT_CB"
    ∧ delete "S" d = delete "S" (base_layout f)
    ∧ st_table st = st_table base_positions
    ∧ ∀ key,
        entry st key = entry base_positions key
        ∨ st_table base_positions !! key = Some a.
Proof.
  destruct (lookup_layout_total f) as [a Ha].
  exists a, (adjust c a base_positions), (adjusted_layout f c).
  split; [by apply prepare_eq|].
  split.
  { pose proof (drawn_layout_eq f c) as Hd. unfold drawn_layout in Hd.
    by rewrite (prepare_eq f c a Ha) in Hd. }
  do 4 (split; [by apply adjusted_layout_frame|]).
  split; [apply adjusted_layout_delete|].
  split; [apply table_adjust|].
  intros key.
  destruct (decide (st_table base_positions !! key = Some a)); [by right|left].
  by apply entry_adjust_ne.
Qed.

(** C9.  The offensive renderer returns the same markup for every value
    of its formation parameter: the five squares of the line and the six
    circles of the skill positions of the fixed eleven-position layout. *)
Theorem C9_offense_ignores_formation (f1 f2 : string) :
  generate_offensive_formation_svg f1 = generate_offensive_formation_svg f2
  ∧ length Offense.positions = 11%nat
  ∧ Svg.occurrences "<rect " (generate_offensive_formation_svg f1) = 5%nat
  ∧ Svg.occurrences "<circle " (generate_offensive_formation_svg f1) = 6%nat.
Proof.
  split; [reflexivity|]. split; [reflexivity|].
  unfold generate_offensive_formation_svg. split; vm_refl.
Qed.

(** C10.  For a coverage key of one of the three adjustment groups the
    safety positions that are drawn are those of the coverage, whatever
    the formation key, known or not: two formations give the same safety
    positions and the same safety markers, in the layout that is drawn
    and in the documents returned, although the base layouts of nickel
    and dime place their safeties elsewhere than 4-3 does. *)
Theorem C10_adjusted_safeties_ignore_formation (c f1 f2 : string) (k : option string) :
  c ∈ (two_deep ++ single_high ++ ["cover_0"])%list →
  ∃ v d1 d2 doc1 doc2,
    safety_adjustment c = Some v
    ∧ drawn_layout f1 c = Some d1
    ∧ drawn_layout f2 c = Some d2
    ∧ d1 !! "S" = Some v
    ∧ d2 !! "S" = Some v
    ∧ accumulate (triangle S_fill) (get d1 "S") ""
      = accumulate (triangle S_fill) (get d2 "S") ""
    ∧ generate_play_diagram f1 c k = Some doc1
    ∧ generate_play_diagram f2 c k = Some doc2
    ∧ Svg.markers S_fill doc1 = length v
    ∧ Svg.markers S_fill doc2 = length v
    ∧ Forall (λ p, Svg.occurrences (triangle S_fill p) doc1 = 1%nat
                   ∧ Svg.occurrences (triangle S_fill p) doc2 = 1%nat) v
    ∧ base_layout "nickel" !! "S" ≠ base_layout "4-3" !! "S"
    ∧ base_layout "dime" !! "S" ≠ base_layout "4-3" !! "S".
Proof.
  intros [v Hv]%safety_adjustment_recognised.
  destruct (diagram_total f1 c k) as [doc1 Hdoc1].
  destruct (diagram_total f2 c k) as [doc2 Hdoc2].
  exists v, (adjusted_layout f1 c), (adjusted_layout f2 c), doc1, doc2.
  pose proof (adjusted_layout_safeties f1 c v Hv) as H1.
  pose proof (adjusted_layout_safeties f2 c v Hv) as H2.
  destruct (document_markers f1 c k doc1 Hdoc1) as (_ & _ & _ & Hn1 & Hall1).
  destruct (document_markers f2 c k doc2 Hdoc2) as (_ & _ & _ & Hn2 & Hall2).
  unfold get in Hn1, Hn2, Hall1, Hall2. rewrite H1 in Hn1, Hall1. rewrite H2 in Hn2, Hall2.
  cbn [default] in Hn1, Hn2, Hall1, Hall2.
  split; [exact Hv|].
  do 2 (split; [apply drawn_layout_eq|]).
  do 2 (split; [done|]).
  split; [unfold get; by rewrite H1, H2|].
  do 4 (split; [done|]).
  split; [by apply Forall_and|].
  split; intros H; vm_compute in H; discriminate H.
Qed.

Lemma C10_witness :
  ∃ v d1 d2 doc1 doc2,
    safety_adjustment "cover_3_sky" = Some v
    ∧ drawn_layout "dime" "cover_3_sky" = Some d1
    ∧ drawn_layout "5-2" "cover_3_sky" = Some d2
    ∧ d1 !! "S" = Some v
    ∧ d2 !! "S" = Some v
    ∧ accumulate (triangle S_fill) (get d1 "S") ""
      = accumulate (triangle S_fill) (get d2 "S") ""
    ∧ generate_play_diagram "dime" "cover_3_sky" (Some "flood") = Some doc1
    ∧ generate_play_diagram "5-2" "cover_3_sky" (Some "flood") = Some doc2
    ∧ Svg.markers S_fill doc1 = length v
    ∧ Svg.markers S_fill doc2 = length v
    ∧ Forall (λ p, Svg.occurrences (triangle S_fill p) doc1 = 1%nat
                   ∧ Svg.occurrences (triangle S_fill p) doc2 = 1%nat) v
    ∧ base_layout "nickel" !! "S" ≠ base_layout "4-3" !! "S"
    ∧ base_layout "dime" !! "S" ≠ base_layout "4-3" !! "S".
Proof.
  apply (C10_adjusted_safeties_ignore_formation "cover_3_sky" "dime" "5-2" (Some "flood")).
  apply (bool_decide_unpack _). vm_compute. exact I.
Defined.

End claims.

(** * Further properties of the diagram *)

Section layers.

Import Defense Keys Svg Layers.

Lemma has_app c s b : has c s = true → has c (s +:+ b) = true.
Proof.
  induction s as [|a s IH]; [done|]. rewrite app_cons. cbn [has].
  by destruct (Ascii.eqb a c).
Qed.

Lemma after_app c s b : has c s = true → after c (s +:+ b) = after c s +:+ b.
Proof.
  induction s as [|a s IH]; [done|]. rewrite app_cons. cbn [has after].
  by destruct (Ascii.eqb a c).
Qed.

Lemma prefix_app_l p a b :
  String.prefix p a = true → String.prefix p (a +:+ b) = true.
Proof.
  revert a. induction p as [|x p IH]; intros a.
  - intros _. by destruct (a +:+ b).
  - destruct a as [|c a]; [done|]. rewrite app_cons, !prefix_cons.
    destruct (Ascii.eqb x c); [apply IH|done].
Qed.

Lemma contains_app_l p a b : contains p a = true → contains p (a +:+ b) = true.
Proof.
  induction a as [|c a IH].
  - cbn [contains]. intros H. apply contains_prefix. by apply prefix_app_l.
  - rewrite app_cons. cbn [contains].
    destruct (String.prefix p (String c a)) eqn:E.
    + intros _. rewrite <- app_cons. by rewrite (prefix_app_l _ _ b E).
    + intros H. rewrite (IH H). by destruct (String.prefix p (String c (a +:+ b))).
Qed.

Lemma contains_app_r p a b : contains p b = true → contains p (a +:+ b) = true.
Proof.
  intros Hb. induction a as [|c a IH]; [done|].
  rewrite app_cons. cbn [contains]. rewrite IH. by destruct (String.prefix _ _).
Qed.

(** The labels of a text that closes its tags and ends its text elements
    are not changed by what follows it. *)
Lemma labels_app a b :
  closed a = true → labels_end a = true →
  labels (a +:+ b) = (labels a ++ labels b)%list.
Proof.
  induction a as [|c a IH]; [done|].
  rewrite app_cons. intros Hcl Hend.
  assert (Hpre : String.prefix "<text " (String c (a +:+ b))
                 = String.prefix "<text " (String c a)).
  { destruct (Ascii.eqb c "<") eqn:Ec.
    - rewrite <- app_cons. apply prefix_stable; [done|].
      cbn [closed] in Hcl. rewrite Ec in Hcl. cbn [has].
      destruct (has ">" a); [|done]. by destruct (Ascii.eqb c ">").
    - rewrite !prefix_cons, Ascii.eqb_sym, Ec. done. }
  assert (Hcl' : closed a = true).
  { cbn [closed] in Hcl. destruct (Ascii.eqb c "<"); [|done].
    by destruct (has ">" a). }
  cbn [labels]. rewrite Hpre. cbn [labels_end] in Hend.
  destruct (String.prefix "<text " (String c a)) eqn:E.
  - destruct (has "<" (after ">" (String c a))) eqn:Elt; [|done].
    assert (Hgt : has ">" (String c a) = true).
    { clear -Elt. induction (String c a) as [|x s IHs]; [done|].
      cbn [has after] in *. destruct (Ascii.eqb x ">"); [done|]. by apply IHs. }
    rewrite <- app_cons, (after_app _ _ b Hgt), (before_app _ _ b Elt).
    cbn [app]. f_equal. by apply IH.
  - cbn [app]. by apply IH.
Qed.

(** The stack of open elements after a text that closes its tags is
    where the scan of what follows starts. *)
Lemma scan_app a b st :
  closed a = true → Xml.scan (a +:+ b) st = st' ← Xml.scan a st; Xml.scan b st'.
Proof.
  revert st. induction a as [|c a IH]; intros st; [done|].
  rewrite app_cons. cbn [closed Xml.scan].
  destruct (Ascii.eqb c "<"); [|by apply IH].
  destruct (has ">" a) eqn:Eh; [|done]. intros Hcl.
  rewrite (has_app _ _ b Eh), (before_app _ _ b Eh).
  destruct (before ">" a) as [|x t]; [by destruct (Xml.ends_in_slash _); apply IH|].
  destruct (Ascii.eqb x "/") eqn:Ex.
  - apply Ascii.eqb_eq in Ex as ->.
    destruct st as [|top rest]; [done|]. destruct (String.eqb top t); [by apply IH|done].
  - assert (Hx : x ≠ "/"%char) by by apply Ascii.eqb_neq.
    destruct x as [[] [] [] [] [] [] [] []]; try done;
      by destruct (Xml.ends_in_slash _); apply IH.
Qed.

Lemma zones_of_rep c : zones_of c = zones_of (rep_coverage c).
Proof.
  unfold rep_coverage. case_bool_decide as Hc; [done|]. unfold zones_of.
  by rewrite (zones_unknown c Hc), (zones_unknown "" empty_coverage_unknown).
Qed.

Lemma spots_of_rep c : spots_of c = spots_of (rep_coverage c).
Proof.
  unfold rep_coverage. case_bool_decide as Hc; [done|]. unfold spots_of.
  by rewrite (spots_unknown c Hc), (spots_unknown "" empty_coverage_unknown).
Qed.

Lemma routes_of_rep k : routes_of k = routes_of (rep_concept k).
Proof.
  destruct k as [s|]; [|done]. cbn [rep_concept].
  case_bool_decide as Hk; [done|]. cbn [routes_of].
  by rewrite (routes_unknown s Hk).
Qed.

Lemma page_layers_rep f c :
  page_layers f c = page_layers (rep_formation f) (rep_coverage c).
Proof.
  unfold page_layers.
  by rewrite (page_rep f c), (adjusted_layout_rep f c), (zones_of_rep c), (spots_of_rep c).
Qed.

Lemma page_layers_reps : for_all coverage_reps page_layers = true.
Proof. vm_refl. Qed.

Lemma tail_layers_reps : forallb tail_layers concept_reps = true.
Proof. vm_refl. Qed.

Lemma page_layers_every f c : page_layers f c = true.
Proof.
  rewrite page_layers_rep.
  apply (for_all_sound coverage_reps);
    auto using page_layers_reps, rep_formation_known, rep_coverage_reps.
Qed.

Lemma tail_layers_every k : tail_layers k = true.
Proof.
  pose proof tail_layers_reps as H. rewrite forallb_forall in H.
  unfold tail_layers. rewrite (tail_rep k), (routes_of_rep k).
  apply (H (rep_concept k)), list_elem_of_In, rep_concept_reps.
Qed.

End layers.

Section diagram_layers.

Import Defense Keys Svg Layers.

Lemma accumulate_from {A} (f : A → string) l svg :
  accumulate f l svg = svg +:+ accumulate f l "".
Proof.
  revert svg. induction l as [|x l IH]; intros svg.
  - cbn. by rewrite append_nil_r.
  - cbn [accumulate foldl]. fold (accumulate f l (svg +:+ f x)).
    fold (accumulate f l ("" +:+ f x)). rewrite IH, (IH ("" +:+ f x)).
    change ("" +:+ f x) with (f x). by rewrite append_assoc.
Qed.

(** The markup of every item is part of what the loop returns. *)
Lemma accumulate_contains {A} (f : A → string) l :
  Forall (λ x, contains (f x) (accumulate f l "") = true) l.
Proof.
  apply Forall_forall. intros x Hx.
  apply list_elem_of_split in Hx as (l1 & l2 & ->).
  unfold accumulate. rewrite foldl_app. cbn [foldl].
  fold (accumulate f l1 ""). fold (accumulate f l2 (accumulate f l1 "" +:+ f x)).
  rewrite accumulate_from, append_assoc. apply contains_app.
Qed.

Lemma contains_mid p a m b :
  contains p m = true → contains p (a +:+ m +:+ b) = true.
Proof. intros H. by apply contains_app_r, contains_app_l. Qed.

Lemma page_checks f c :
  let doc := page f c in
  zone_overlays doc = length (zones_of c)
  ∧ hotspots doc = length (spots_of c)
  ∧ labels_end doc = true
  ∧ labels doc = Spots.label <$> spots_of c
  ∧ route_segments doc = 0%nat
  ∧ positions_total (adjusted_layout f c) = 11%nat
  ∧ player_circles doc = 6%nat
  ∧ line_squares doc = 5%nat
  ∧ Xml.scan doc [] = Some ["svg"].
Proof.
  pose proof (page_layers_every f c) as H. unfold page_layers in H. cbn zeta in *.
  repeat (apply andb_prop in H as [H ?]).
  repeat split;
    first [ apply Nat.eqb_eq; assumption | assumption
          | eapply bool_decide_eq_true_1; eassumption ].
Qed.

Lemma tail_checks k :
  closed (tail k) = true
  ∧ route_segments (tail k) = length (routes_of k)
  ∧ Xml.scan (tail k) ["svg"] = Some [].
Proof.
  pose proof (tail_layers_every k) as H. unfold tail_layers in H. cbn zeta in *.
  repeat (apply andb_prop in H as [H ?]).
  repeat split;
    first [ apply Nat.eqb_eq; assumption | assumption
          | eapply bool_decide_eq_true_1; eassumption ].
Qed.

(** X1.  Every document has one translucent rectangle for each zone that the
    table lists under the coverage key, and the rectangle of each of
    them. *)
Theorem zone_overlays_as_listed (f c : string) (k : option string) :
  ∃ doc,
    generate_play_diagram f c k = Some doc
    ∧ zone_overlays doc = length (zones_of c)
    ∧ Forall (λ z, contains (Zones.rect z) doc = true) (zones_of c).
Proof.
  eexists. split; [apply diagram_eq|].
  destruct (page_checks f c) as (Hz & _). split.
  - rewrite <- Hz. unfold zone_overlays.
    apply (count_document _ "<rect ");
      [by apply element_tag_test|apply element_prefix|apply tail_plain].
  - eapply Forall_impl; [apply (accumulate_contains Zones.rect)|].
    intros z Hz'. cbn beta in *. apply contains_app_l.
    unfold page, Diagram.body.
    rewrite <- (append_assoc Diagram.header), <- (append_assoc _ Diagram.sep).
    by apply contains_mid.
Qed.

(** X2.  Every document has one pulsing circle for each hotspot that the table
    lists under the coverage key, and its text elements carry the labels
    of these hotspots, in the order of the table. *)
Theorem hotspots_as_listed (f c : string) (k : option string) :
  ∃ doc,
    generate_play_diagram f c k = Some doc
    ∧ hotspots doc = length (spots_of c)
    ∧ labels doc = Spots.label <$> spots_of c.
Proof.
  eexists. split; [apply diagram_eq|].
  destruct (page_checks f c) as (_ & Hs & Hend & Hl & _). split.
  - rewrite <- Hs. unfold hotspots.
    apply (count_document _ "<circle ");
      [by apply element_tag_test|apply element_prefix|apply tail_plain].
  - rewrite labels_app by (apply page_closed || done).
    rewrite (labels_none (tail k)) by apply tail_plain.
    by rewrite app_nil_r.
Qed.

(** X3.  Every document has one arrow line for each route that the table
    lists under the concept key, the line of each of them, and none when
    the concept is left out. *)
Theorem route_segments_as_listed (f c : string) (k : option string) :
  ∃ doc,
    generate_play_diagram f c k = Some doc
    ∧ route_segments doc = length (routes_of k)
    ∧ Forall (λ r, contains (Routes.line r) doc = true) (routes_of k).
Proof.
  eexists. split; [apply diagram_eq|].
  destruct (page_checks f c) as (_ & _ & _ & _ & Hr & _).
  destruct (tail_checks k) as (_ & Ht & _). split.
  - unfold route_segments in *.
    rewrite count_app; [lia|by apply element_tag_test|apply page_closed].
  - destruct k as [s|]; [|by apply Forall_nil].
    eapply Forall_impl; [apply (accumulate_contains Routes.line)|].
    intros r Hr'. cbn beta in *. apply contains_app_r.
    unfold tail. cbn [route_layer]. by apply contains_app_l.
Qed.

(** X4.  Every document shows eleven defenders and eleven offensive players:
    whatever the formation and the coverage, the layout that is drawn
    holds eleven positions, and the document has eleven defensive
    triangles, six player circles and five line squares. *)
Theorem eleven_a_side (f c : string) (k : option string) :
  ∃ doc,
    generate_play_diagram f c k = Some doc
    ∧ positions_total (adjusted_layout f c) = 11%nat
    ∧ defensive_markers doc = 11%nat
    ∧ player_circles doc = 6%nat
    ∧ line_squares doc = 5%nat.
Proof.
  destruct (diagram_total f c k) as [doc Hdoc]. exists doc.
  destruct (document_markers f c k doc Hdoc) as (_ & Hdef & _).
  destruct (page_checks f c) as (_ & _ & _ & _ & _ & H11 & Hc & Hs & _).
  rewrite diagram_eq in Hdoc. injection Hdoc as <-.
  split; [apply diagram_eq|]. split; [exact H11|]. split; [by rewrite Hdef|].
  split.
  - rewrite <- Hc. unfold player_circles.
    apply (count_document _ "<circle ");
      [by apply element_tag_test|apply element_prefix|apply tail_plain].
  - rewrite <- Hs. unfold line_squares.
    apply (count_document _ "<rect ");
      [by apply element_tag_test|apply element_prefix|apply tail_plain].
Qed.

(** X5.  Every document is balanced: it opens with the svg element, every
    start tag is matched by its end tag, innermost first, or is
    self-closing, and the end tag of svg is the end of the document. *)
Theorem document_is_balanced (f c : string) (k : option string) :
  ∃ doc rest,
    generate_play_diagram f c k = Some doc
    ∧ String.prefix (q (nl +:+ "    <svg ")) doc = true
    ∧ doc = rest +:+ "</svg>"
    ∧ Xml.balanced doc = true.
Proof.
  exists (page f c +:+ tail k), (page f c +:+ route_layer k).
  destruct (page_checks f c) as (_ & _ & _ & _ & _ & _ & _ & _ & Hp).
  destruct (tail_checks k) as (_ & _ & Ht).
  split; [apply diagram_eq|].
  split.
  { apply prefix_app_l. unfold page, Diagram.body.
    apply (prefix_app_l _ Diagram.header). vm_refl. }
  split; [unfold tail; by rewrite append_assoc|].
  unfold Xml.balanced. rewrite scan_app by apply page_closed.
  rewrite Hp. cbn [mbind option_bind]. by rewrite Ht.
Qed.

End diagram_layers.

Section canvas.

Import Defense Keys Layers.

Lemma inside_dec p : Decision (Canvas.inside p).
Proof. unfold Canvas.inside. apply _. Defined.

#[local] Existing Instance inside_dec.

Lemma layouts_inside :
  map_Forall (λ _ (d : gmap string (list pos)),
      map_Forall (λ _ ps, Forall (λ p, Forall Canvas.inside (Canvas.vertices p)) ps) d)
    (list_to_map base_layouts : gmap string (gmap string (list pos))).
Proof. apply (bool_decide_unpack _). vm_compute. exact I. Qed.

Lemma base_layout_inside f role :
  Forall (λ p, Forall Canvas.inside (Canvas.vertices p)) (get (base_layout f) role).
Proof.
  unfold get. destruct (base_layout f !! role) as [ps|] eqn:E; [|by apply Forall_nil].
  unfold base_layout in E.
  destruct ((list_to_map base_layouts : gmap string (gmap string (list pos))) !! f)
    as [d|] eqn:Ef; cbn [default] in E.
  - exact (layouts_inside f d Ef role ps E).
  - assert (H43 : (list_to_map base_layouts : gmap string (gmap string (list pos)))
                  !! "4-3" = Some layout_4_3) by vm_refl.
    exact (layouts_inside "4-3" layout_4_3 H43 role ps E).
Qed.

Lemma adjustments_inside c v :
  safety_adjustment c = Some v →
  Forall (λ p, Forall Canvas.inside (Canvas.vertices p)) v.
Proof.
  unfold safety_adjustment. repeat case_bool_decide; intros [= <-];
    apply (bool_decide_unpack _); vm_compute; exact I.
Qed.

Lemma zones_inside :
  map_Forall (λ _ zs, Forall (λ z, Forall Canvas.inside (Canvas.zone_corners z)) zs)
    Zones.zones.
Proof. apply (bool_decide_unpack _). vm_compute. exact I. Qed.

Lemma spots_inside :
  map_Forall (λ _ ss, Forall (λ s, Forall Canvas.inside (Canvas.spot_points s)) ss)
    Spots.spots.
Proof. apply (bool_decide_unpack _). vm_compute. exact I. Qed.

Lemma routes_inside :
  map_Forall (λ _ rs, Forall (λ r, Forall Canvas.inside (Canvas.route_ends r)) rs)
    Routes.routes.
Proof. apply (bool_decide_unpack _). vm_compute. exact I. Qed.

(** X6.  Nothing is placed outside the 400 by 250 canvas: for every formation,
    coverage and concept key, the vertices of every defensive triangle
    that is drawn, the box of every offensive marker, the corners of
    every zone rectangle, the centre and the label anchor of every
    hotspot and both ends of every route lie inside it. *)
Theorem drawn_inside_the_canvas :
  (∀ f c role,
     Forall (λ p, Forall Canvas.inside (Canvas.vertices p))
       (get (adjusted_layout f c) role))
  ∧ Forall (λ item, Forall Canvas.inside (Canvas.circle_box item.2)
                    ∧ Forall Canvas.inside (Canvas.square_corners item.2))
      Offense.positions
  ∧ (∀ c, Forall (λ z, Forall Canvas.inside (Canvas.zone_corners z)) (zones_of c))
  ∧ (∀ c, Forall (λ s, Forall Canvas.inside (Canvas.spot_points s)) (spots_of c))
  ∧ (∀ k, Forall (λ r, Forall Canvas.inside (Canvas.route_ends r)) (routes_of k)).
Proof.
  split; [|split; [|split; [|split]]].
  - intros f c role. unfold adjusted_layout.
    destruct (safety_adjustment c) as [v|] eqn:Ev; [|apply base_layout_inside].
    destruct (decide (role = "S")) as [->|Hr].
    + unfold get. rewrite lookup_insert_eq. by apply (adjustments_inside c).
    + unfold get. rewrite lookup_insert_ne by done. apply base_layout_inside.
  - apply (bool_decide_unpack _). vm_compute. exact I.
  - intros c. unfold zones_of.
    destruct (Zones.zones !! c) as [zs|] eqn:E; [|by apply Forall_nil].
    exact (zones_inside c zs E).
  - intros c. unfold spots_of.
    destruct (Spots.spots !! c) as [ss|] eqn:E; [|by apply Forall_nil].
    exact (spots_inside c ss E).
  - intros [s|]; [|by apply Forall_nil]. unfold routes_of.
    destruct (Routes.routes !! s) as [rs|] eqn:E; [|by apply Forall_nil].
    exact (routes_inside s rs E).
Qed.

End canvas.

Section routes.

Import Svg Layers.

Lemma offense_in_page f c :
  Forall (λ item, contains (Offense.marker item) (page f c) = true) Offense.positions.
Proof.
  eapply Forall_impl; [apply (accumulate_contains Offense.marker)|].
  intros item Hitem. cbn beta in *.
  unfold page, Diagram.body.
  do 7 apply contains_app_r. by apply contains_app_l.
Qed.

Lemma route_starts :
  map_Forall (λ _ rs,
      Forall (λ r, Exists (λ item, item.2 = Routes.from r
                                   ∧ String.prefix "<circle " (Offense.marker item) = true)
                     Offense.positions) rs)
    Routes.routes.
Proof. apply (bool_decide_unpack _). vm_compute. exact I. Qed.

(** X7.  Every route that is drawn starts at a player of the offense who is
    drawn as a circle, a receiver, the tight end or a back, never at a
    lineman, and the circle of this player is in the document. *)
Theorem routes_start_at_a_player (f c k : string) :
  ∃ doc,
    generate_play_diagram f c (Some k) = Some doc
    ∧ Forall (λ r, Exists (λ item, item.2 = Routes.from r
                                   ∧ String.prefix "<circle " (Offense.marker item) = true
                                   ∧ contains (Offense.marker item) doc = true)
                     Offense.positions)
        (routes_of (Some k)).
Proof.
  eexists. split; [apply diagram_eq|].
  unfold routes_of. destruct (Routes.routes !! k) as [rs|] eqn:E; [|by apply Forall_nil].
  eapply Forall_impl; [exact (route_starts k rs E)|].
  intros r (item & Hitem & Hfrom & Hcircle)%Exists_exists. cbn beta.
  apply Exists_exists. exists item. split; [done|]. split; [done|]. split; [done|].
  apply contains_app_l.
  by apply (proj1 (Forall_forall _ _) (offense_in_page f c)).
Qed.

End routes.

(** * The handlers *)

(** ** [get_all_plays] *)

Section plays.

Import Svg Plays.

Lemma bind_ok {A B} (a : A) (k : A → result B) : (x ← Ok a; k x) = k a.
Proof. reflexivity. Qed.

Lemma bind_inv {A B} (r : result A) (k : A → result B) b :
  (x ← r; k x) = Ok b → ∃ a, r = Ok a ∧ k a = Ok b.
Proof. destruct r as [a|e]; [eauto|done]. Qed.

Lemma name_of_named v : named v → getitem v "name" = Ok (name_of v).
Proof. intros [n Hn]. unfold name_of. by rewrite Hn. Qed.

Lemma play_named f c b :
  named f.2 → named c.2 → named b.2 →
  play f.1 f.2 c.1 c.2 b.1 b.2 = Ok (play_of f c b).
Proof.
  intros Hf Hc Hb. unfold play.
  rewrite (name_of_named _ Hf). cbn [mbind result_bind bind].
  rewrite (name_of_named _ Hc). cbn [mbind result_bind bind].
  by rewrite (name_of_named _ Hb).
Qed.

Lemma play_ok fk f ck c bk b p :
  play fk f ck c bk b = Ok p → named f ∧ named c ∧ named b.
Proof.
  unfold play. intros (nf & Hf & H)%bind_inv. apply bind_inv in H as (nc & Hc & H).
  apply bind_inv in H as (nb & Hb & _). repeat split; eexists; eassumption.
Qed.

Lemma add_play_eq fk f ck c ps bk b :
  add_play fk f ck c ps (bk, b)
  = (p ← play fk f ck c bk b; Ok (ps ++ [p])%list).
Proof. reflexivity. Qed.

(** The loop over the blitz packages adds the plays of all of them. *)
Lemma blitz_loop f c B ps :
  named f.2 → named c.2 → Forall (λ b, named b.2) B →
  for_each B (add_play f.1 f.2 c.1 c.2) ps = Ok (ps ++ (b ← B; [play_of f c b]))%list.
Proof.
  intros Hf Hc HB. revert ps. induction HB as [|[bk b] B Hb HB IH]; intros ps.
  - cbn. by rewrite app_nil_r.
  - pose proof (play_named f c (bk, b) Hf Hc Hb) as Hp. cbn [fst snd] in Hp.
    cbn [for_each]. rewrite add_play_eq, Hp. cbn [mbind result_bind bind]. rewrite IH.
    rewrite bind_cons. by rewrite <- app_assoc.
Qed.

Lemma blitz_loop_ok fk f ck c B ps ps' :
  for_each B (add_play fk f ck c) ps = Ok ps' →
  Forall (λ b, named b.2) B ∧ (B ≠ [] → named f ∧ named c).
Proof.
  revert ps. induction B as [|[bk b] B IH]; intros ps; [done|].
  cbn [for_each]. rewrite add_play_eq. intros (ps1 & H1 & H2)%bind_inv.
  apply bind_inv in H1 as (p & Hp%play_ok & _). destruct Hp as (Hf & Hc & Hb).
  apply IH in H2 as [HB _]. split; [by constructor|done].
Qed.

Section tables.

Variables (D : json) (C B : list (string * json)).
Hypothesis HC : getitem D "coverages" = Ok (JObj C).
Hypothesis HB : getitem D "blitz_packages" = Ok (JObj B).

Lemma over_blitzes_eq fk f c ps :
  over_blitzes D fk f ps c = for_each B (add_play fk f c.1 c.2) ps.
Proof. destruct c as [ck c]. unfold over_blitzes. by rewrite HB. Qed.

Lemma over_coverages_eq f ps :
  over_coverages D ps f = for_each C (over_blitzes D f.1 f.2) ps.
Proof. destruct f as [fk f]. unfold over_coverages. by rewrite HC. Qed.

Lemma coverage_loop f Cs ps :
  named f.2 → Forall (λ c, named c.2) Cs → Forall (λ b, named b.2) B →
  for_each Cs (over_blitzes D f.1 f.2) ps
  = Ok (ps ++ (c ← Cs; b ← B; [play_of f c b]))%list.
Proof.
  intros Hf HCn HBn. revert ps. induction HCn as [|c Cs Hc HCn IH]; intros ps.
  - cbn. by rewrite app_nil_r.
  - cbn [for_each]. rewrite over_blitzes_eq, (blitz_loop f c B ps Hf Hc HBn).
    cbn [bind]. rewrite IH, bind_cons. by rewrite <- app_assoc.
Qed.

Lemma coverage_loop_ok fk f Cs ps ps' :
  for_each Cs (over_blitzes D fk f) ps = Ok ps' →
  (B ≠ [] → Forall (λ c, named c.2) Cs)
  ∧ (Cs ≠ [] → Forall (λ b, named b.2) B ∧ (B ≠ [] → named f)).
Proof.
  revert ps. induction Cs as [|c Cs IH]; intros ps; [done|].
  cbn [for_each]. intros (ps1 & H1 & H2)%bind_inv.
  rewrite over_blitzes_eq in H1. apply blitz_loop_ok in H1 as [HBn Hfc].
  apply IH in H2 as [HCn _]. split.
  - intros HBne. constructor; [by apply Hfc|by apply HCn].
  - intros _. split; [done|]. intros HBne. by apply Hfc.
Qed.

Lemma formation_loop Fs ps :
  Forall (λ f, named f.2) Fs → Forall (λ c, named c.2) C → Forall (λ b, named b.2) B →
  for_each Fs (over_coverages D) ps = Ok (ps ++ combinations Fs C B)%list.
Proof.
  intros HFn HCn HBn. unfold combinations. revert ps.
  induction HFn as [|f Fs Hf HFn IH]; intros ps.
  - cbn. by rewrite app_nil_r.
  - cbn [for_each]. rewrite over_coverages_eq, (coverage_loop f C ps Hf HCn HBn).
    cbn [bind]. rewrite IH, bind_cons. by rewrite <- app_assoc.
Qed.

Lemma formation_loop_named Fs ps ps' :
  for_each Fs (over_coverages D) ps = Ok ps' →
  C ≠ [] → B ≠ [] → Forall (λ f, named f.2) Fs.
Proof.
  intros Hok HCne HBne. revert ps Hok.
  induction Fs as [|f Fs IH]; intros ps; [done|].
  cbn [for_each]. intros (ps1 & H1 & H2)%bind_inv.
  rewrite over_coverages_eq in H1. apply coverage_loop_ok in H1 as [_ H1].
  constructor; [by apply H1|by eapply IH].
Qed.

Lemma formation_loop_ok Fs ps ps' :
  for_each Fs (over_coverages D) ps = Ok ps' →
  Fs ≠ [] → C ≠ [] → B ≠ [] →
  Forall (λ f, named f.2) Fs ∧ Forall (λ c, named c.2) C ∧ Forall (λ b, named b.2) B.
Proof.
  intros Hok HFne HCne HBne.
  split; [by eapply formation_loop_named|].
  destruct Fs as [|f Fs]; [done|]. cbn [for_each] in Hok.
  apply bind_inv in Hok as (ps1 & H1 & _).
  rewrite over_coverages_eq in H1. apply coverage_loop_ok in H1 as [H1 H2].
  split; [by apply H1|by apply H2].
Qed.

End tables.

Lemma combinations_length F C B :
  length (combinations F C B) = (length F * length C * length B)%nat.
Proof.
  unfold combinations. induction F as [|f F IH]; [done|].
  rewrite bind_cons, length_app, IH.
  assert (Hc : length (c ← C; b ← B; [play_of f c b]) = (length C * length B)%nat).
  { clear. induction C as [|c C IHc]; [done|]. rewrite bind_cons, length_app, IHc.
    assert (Hb : length (b ← B; [play_of f c b]) = length B).
    { clear. induction B as [|b B IHb]; [done|]. rewrite bind_cons, length_app, IHb. done. }
    rewrite Hb. cbn [length]. lia. }
  rewrite Hc. cbn [length]. lia.
Qed.

Lemma formations_read D F :
  getitem D "formations" = Ok (JObj F) →
  get_all_plays D
  = (plays ← for_each F (over_coverages D) [];
     Ok (200%nat, JObj [ ("plays", JArr plays);
                         ("count", JNum (Z.of_nat (length plays))) ])).
Proof. intros HF. unfold get_all_plays. by rewrite HF. Qed.

Lemma blitz_loop_empty fk f ck c ps : for_each [] (add_play fk f ck c) ps = Ok ps.
Proof. reflexivity. Qed.

Lemma coverage_loop_empty D fk f Cs ps :
  getitem D "blitz_packages" = Ok (JObj []) →
  for_each Cs (over_blitzes D fk f) ps = Ok ps.
Proof.
  intros HB. induction Cs as [|c Cs IH]; [done|].
  cbn [for_each]. rewrite (over_blitzes_eq D [] HB). cbn. exact IH.
Qed.

Lemma formation_loop_empty D C Fs ps :
  getitem D "coverages" = Ok (JObj C) →
  (C = [] ∨ getitem D "blitz_packages" = Ok (JObj [])) →
  for_each Fs (over_coverages D) ps = Ok ps.
Proof.
  intros HC Hempty. induction Fs as [|f Fs IH]; [done|].
  cbn [for_each]. rewrite (over_coverages_eq D C HC).
  destruct Hempty as [->|HB]; [cbn; exact IH|].
  rewrite (coverage_loop_empty D _ _ _ _ HB). cbn. exact IH.
Qed.

Lemma served_table (handler : json → result (nat * json)) name field D T :
  (∀ D, handler D = (t ← getitem D name; Ok (200%nat, JObj [ (field, t) ]))) →
  handler D = Ok (200%nat, JObj [ (field, T) ]) → getitem D name = Ok T.
Proof.
  intros -> H. destruct (getitem D name) as [t|e]; [|done].
  cbn in H. by injection H as ->.
Qed.

(** X8.  The plays of /api/all-plays are the combinations of the members of
    the three tables that /api/formations, /api/coverages and /api/blitzes
    serve, in the order of the tables with the formation slowest and the
    blitz fastest, when every member has a name; the count is the product
    of the three sizes. *)
Theorem every_combination_is_a_play D F C B :
  get_formations D = Ok (200%nat, JObj [ ("formations", JObj F) ]) →
  get_coverages D = Ok (200%nat, JObj [ ("coverages", JObj C) ]) →
  get_blitzes D = Ok (200%nat, JObj [ ("blitzes", JObj B) ]) →
  Forall (λ f, named f.2) F → Forall (λ c, named c.2) C → Forall (λ b, named b.2) B →
  get_all_plays D
  = Ok (200%nat,
        JObj [ ("plays", JArr (combinations F C B));
               ("count", JNum (Z.of_nat (length F * length C * length B))) ]).
Proof.
  intros HF%(served_table get_formations "formations") HC%(served_table get_coverages "coverages")
    HB%(served_table get_blitzes "blitz_packages") HFn HCn HBn; try done.
  rewrite (formations_read D F HF), (formation_loop D C B HC HB F [] HFn HCn HBn).
  cbn [mbind result_bind bind app]. by rewrite combinations_length.
Qed.

Lemma every_combination_is_a_play_witness :
  get_all_plays Sample.DEFENSES
  = Ok (200%nat,
        JObj [ ("plays",
                JArr (combinations
                        [("4-3", Sample.entry "4-3 Base"); ("nickel", Sample.entry "Nickel")]
                        [("cover_2", Sample.entry "Cover 2"); ("cover_3", Sample.entry "Cover 3")]
                        [("base", Sample.entry "Base"); ("fire", Sample.entry "Fire Zone")]));
               ("count", JNum 8) ]).
Proof.
  apply (every_combination_is_a_play Sample.DEFENSES
           [("4-3", Sample.entry "4-3 Base"); ("nickel", Sample.entry "Nickel")]
           [("cover_2", Sample.entry "Cover 2"); ("cover_3", Sample.entry "Cover 3")]
           [("base", Sample.entry "Base"); ("fire", Sample.entry "Fire Zone")]);
    try reflexivity; repeat constructor; eexists; reflexivity.
Defined.

(** X9.  When the table of formations or the table of coverages is empty, or
    the table of blitz packages is, /api/all-plays answers with no play
    and the count 0, whether or not the members of the other tables have
    names; a table that no loop reaches is not read. *)
Theorem an_empty_table_gives_no_play D F C :
  getitem D "formations" = Ok (JObj F) →
  F = []
  ∨ getitem D "coverages" = Ok (JObj C)
    ∧ (C = [] ∨ getitem D "blitz_packages" = Ok (JObj [])) →
  get_all_plays D = Ok (200%nat, JObj [ ("plays", JArr []); ("count", JNum 0) ]).
Proof.
  intros HF Hempty. rewrite (formations_read D F HF).
  destruct Hempty as [->|[HC Hempty]]; [done|].
  by rewrite (formation_loop_empty D C F [] HC Hempty).
Qed.

Lemma an_empty_table_gives_no_play_witness :
  get_all_plays Sample.unnamed = Ok (200%nat, JObj [ ("plays", JArr []); ("count", JNum 0) ]).
Proof.
  apply (an_empty_table_gives_no_play Sample.unnamed
           [("4-3", JObj []); ("nickel", Sample.entry "Nickel")] []).
  - reflexivity.
  - right. split; [reflexivity|]. left. reflexivity.
Defined.

(** X10.  With three tables that are not empty, /api/all-plays answers if and
    only if every member of every table has a name; otherwise the
    exception of the missing name leaves the handler. *)
Theorem a_play_needs_every_name D F C B :
  getitem D "formations" = Ok (JObj F) →
  getitem D "coverages" = Ok (JObj C) →
  getitem D "blitz_packages" = Ok (JObj B) →
  F ≠ [] → C ≠ [] → B ≠ [] →
  (∃ r, get_all_plays D = Ok r)
  ↔ Forall (λ f, named f.2) F ∧ Forall (λ c, named c.2) C ∧ Forall (λ b, named b.2) B.
Proof.
  intros HF HC HB HFne HCne HBne. rewrite (formations_read D F HF). split.
  - intros [r (ps & Hps & _)%bind_inv].
    by apply (formation_loop_ok D C B HC HB F [] ps).
  - intros (HFn & HCn & HBn).
    rewrite (formation_loop D C B HC HB F [] HFn HCn HBn). eauto.
Qed.

Lemma a_play_needs_every_name_witness :
  (∃ r, get_all_plays Sample.DEFENSES = Ok r)
  ↔ Forall (λ f, named f.2) [("4-3", Sample.entry "4-3 Base"); ("nickel", Sample.entry "Nickel")]
    ∧ Forall (λ c, named c.2) [("cover_2", Sample.entry "Cover 2"); ("cover_3", Sample.entry "Cover 3")]
    ∧ Forall (λ b, named b.2) [("base", Sample.entry "Base"); ("fire", Sample.entry "Fire Zone")].
Proof.
  apply (a_play_needs_every_name Sample.DEFENSES); reflexivity || discriminate.
Defined.

Lemma has_mid u a b : Svg.has u (a +:+ String u b) = true.
Proof.
  induction a as [|x a IH]; cbn [Svg.has].
  - change ("" +:+ String u b) with (String u b). cbn [Svg.has]. by rewrite Ascii.eqb_refl.
  - rewrite app_cons. cbn [Svg.has]. rewrite IH. by destruct (Ascii.eqb x u).
Qed.

Lemma split_l u a a' r r' :
  Svg.has u a = false → Svg.has u a' = false →
  a +:+ String u r = a' +:+ String u r' → a = a' ∧ r = r'.
Proof.
  revert a'. induction a as [|x a IH]; intros [|x' a']; cbn [Svg.has].
  - intros _ _ H. by injection H.
  - intros _ Hx'. rewrite app_cons. intros H. injection H as <- _.
    by rewrite Ascii.eqb_refl in Hx'.
  - intros Hx _. rewrite app_cons. intros H. injection H as -> _.
    by rewrite Ascii.eqb_refl in Hx.
  - destruct (Ascii.eqb x u); [done|]. destruct (Ascii.eqb x' u); [done|].
    intros Ha Ha'. rewrite !app_cons. intros H. injection H as -> H.
    destruct (IH _ Ha Ha' H) as [-> ->]. done.
Qed.

Lemma split_r u a a' r r' :
  Svg.has u r = false → Svg.has u r' = false →
  a +:+ String u r = a' +:+ String u r' → a = a' ∧ r = r'.
Proof.
  intros Hr Hr'. revert a'. induction a as [|x a IH]; intros [|x' a'].
  - intros H. by injection H.
  - rewrite app_cons. intros H. injection H as _ ->. by rewrite has_mid in Hr.
  - rewrite app_cons. intros H. injection H as _ <-. by rewrite has_mid in Hr'.
  - rewrite !app_cons. intros H. injection H as -> H.
    destruct (IH _ H) as [-> ->]. done.
Qed.

Lemma play_id_eq f c b : play_id f c b = f +:+ String "_" (c +:+ String "_" b).
Proof. reflexivity. Qed.

Lemma play_id_assoc f c b : play_id f c b = (f +:+ String "_" c) +:+ String "_" b.
Proof. rewrite play_id_eq. by rewrite append_assoc. Qed.

Section keys.

Variables F C B : list (string * json).
Hypothesis two_plain : plain F ∧ plain C ∨ plain F ∧ plain B ∨ plain C ∧ plain B.

Lemma play_id_inj f f' c c' b b' :
  f ∈ F → f' ∈ F → c ∈ C → c' ∈ C → b ∈ B → b' ∈ B →
  play_id f.1 c.1 b.1 = play_id f'.1 c'.1 b'.1 →
  f.1 = f'.1 ∧ c.1 = c'.1 ∧ b.1 = b'.1.
Proof.
  intros Hf Hf' Hc Hc' Hb Hb' Hid.
  destruct two_plain as [[HF HC]|[[HF HB]|[HC HB]]].
  - rewrite !play_id_eq in Hid.
    apply split_l in Hid as [? Hid];
      [|by apply (proj1 (Forall_forall _ _) HF)|by apply (proj1 (Forall_forall _ _) HF)].
    apply split_l in Hid as [? ?];
      [done|by apply (proj1 (Forall_forall _ _) HC)|by apply (proj1 (Forall_forall _ _) HC)].
  - rewrite !play_id_eq in Hid.
    apply split_l in Hid as [? Hid];
      [|by apply (proj1 (Forall_forall _ _) HF)|by apply (proj1 (Forall_forall _ _) HF)].
    apply split_r in Hid as [? ?];
      [done|by apply (proj1 (Forall_forall _ _) HB)|by apply (proj1 (Forall_forall _ _) HB)].
  - rewrite !play_id_assoc in Hid.
    apply split_r in Hid as [Hid ?];
      [|by apply (proj1 (Forall_forall _ _) HB)|by apply (proj1 (Forall_forall _ _) HB)].
    apply split_r in Hid as [? ?];
      [done|by apply (proj1 (Forall_forall _ _) HC)|by apply (proj1 (Forall_forall _ _) HC)].
Qed.

End keys.

Lemma same_key (T : list (string * json)) e e' :
  NoDup T.*1 → e ∈ T → e' ∈ T → e.1 = e'.1 → e = e'.
Proof.
  induction T as [|x T IH]; [by intros _ ?%elem_of_nil|].
  rewrite fmap_cons, NoDup_cons, !elem_of_cons.
  intros [Hx HT] [->|He] [->|He'] Hk; [done| | |by apply IH].
  - destruct Hx. rewrite Hk. by apply list_elem_of_fmap_2.
  - destruct Hx. rewrite <- Hk. by apply list_elem_of_fmap_2.
Qed.

Lemma NoDup_entries (T : list (string * json)) : NoDup T.*1 → NoDup T.
Proof. apply NoDup_fmap_1. Qed.

Lemma ids_combinations F C B :
  id_of <$> combinations F C B
  = f ← F; c ← C; b ← B; [Ok (JStr (play_id f.1 c.1 b.1))].
Proof.
  unfold combinations.
  induction F as [|f F IHF]; [done|]. rewrite !bind_cons, fmap_app, IHF. f_equal.
  clear. induction C as [|c C IHC]; [done|]. rewrite !bind_cons, fmap_app, IHC. f_equal.
  clear. induction B as [|b B IHB]; [done|]. rewrite !bind_cons, fmap_app, IHB. done.
Qed.

Lemma ids_NoDup F C B :
  plain F ∧ plain C ∨ plain F ∧ plain B ∨ plain C ∧ plain B →
  NoDup F.*1 → NoDup C.*1 → NoDup B.*1 →
  NoDup (id_of <$> combinations F C B).
Proof.
  intros Hplain HF HC HB. rewrite ids_combinations.
  apply NoDup_bind; [| |by apply NoDup_entries].
  - intros f f' y Hf Hf'.
    intros (c & (b & ->%list_elem_of_singleton & Hb)%list_elem_of_bind & Hc)%list_elem_of_bind.
    intros (c' & (b' & Hid%list_elem_of_singleton & Hb')%list_elem_of_bind & Hc')%list_elem_of_bind.
    injection Hid as Hid.
    apply (play_id_inj F C B Hplain) in Hid as (? & _ & _); try done.
    by apply (same_key F).
  - intros f Hf. apply NoDup_bind; [| |by apply NoDup_entries].
    + intros c c' y Hc Hc'.
      intros (b & ->%list_elem_of_singleton & Hb)%list_elem_of_bind.
      intros (b' & Hid%list_elem_of_singleton & Hb')%list_elem_of_bind.
      injection Hid as Hid.
      apply (play_id_inj F C B Hplain) in Hid as (_ & ? & _); try done.
      by apply (same_key C).
    + intros c Hc. apply NoDup_bind; [| |by apply NoDup_entries].
      * intros b b' y Hb Hb' ->%list_elem_of_singleton Hid%list_elem_of_singleton.
        injection Hid as Hid.
        apply (play_id_inj F C B Hplain) in Hid as (_ & _ & ?); try done.
        by apply (same_key B).
      * intros b _. apply NoDup_singleton.
Qed.

(** X11.  The ids of the plays of /api/all-plays are pairwise distinct when no
    table has a key twice and the keys of at least two of the three
    tables have no underscore. *)
Theorem play_ids_are_distinct D F C B :
  getitem D "formations" = Ok (JObj F) →
  getitem D "coverages" = Ok (JObj C) →
  getitem D "blitz_packages" = Ok (JObj B) →
  Forall (λ f, named f.2) F → Forall (λ c, named c.2) C → Forall (λ b, named b.2) B →
  NoDup F.*1 → NoDup C.*1 → NoDup B.*1 →
  plain F ∧ plain C ∨ plain F ∧ plain B ∨ plain C ∧ plain B →
  ∃ plays count,
    get_all_plays D = Ok (200%nat, JObj [ ("plays", JArr plays); ("count", count) ])
    ∧ NoDup (id_of <$> plays).
Proof.
  intros HF HC HB HFn HCn HBn HFk HCk HBk Hplain.
  exists (combinations F C B), (JNum (Z.of_nat (length (combinations F C B)))). split.
  - rewrite (formations_read D F HF), (formation_loop D C B HC HB F [] HFn HCn HBn). done.
  - by apply ids_NoDup.
Qed.

Lemma play_ids_are_distinct_witness :
  ∃ plays count,
    get_all_plays Sample.DEFENSES
    = Ok (200%nat, JObj [ ("plays", JArr plays); ("count", count) ])
    ∧ NoDup (id_of <$> plays).
Proof.
  apply (play_ids_are_distinct Sample.DEFENSES
           [("4-3", Sample.entry "4-3 Base"); ("nickel", Sample.entry "Nickel")]
           [("cover_2", Sample.entry "Cover 2"); ("cover_3", Sample.entry "Cover 3")]
           [("base", Sample.entry "Base"); ("fire", Sample.entry "Fire Zone")]);
    try reflexivity.
  - repeat constructor; eexists; reflexivity.
  - repeat constructor; eexists; reflexivity.
  - repeat constructor; eexists; reflexivity.
  - apply (bool_decide_unpack _). vm_compute. exact I.
  - apply (bool_decide_unpack _). vm_compute. exact I.
  - apply (bool_decide_unpack _). vm_compute. exact I.
  - right. left. split; repeat constructor.
Defined.

(** Underscores in the keys of two tables can make two plays share an id. *)
Example play_ids_can_collide :
  play_id "a" "b_c" "d" = play_id "a_b" "c" "d".
Proof. reflexivity. Qed.

End plays.

(** ** [get_concept_diagram] *)

Section concept.

Import Svg Layers.

Lemma table_get_object D name key T :
  getitem D name = Ok (JObj T) →
  table_get D name key = Ok (default (JObj []) (assoc key T)).
Proof. intros H. unfold table_get. by rewrite H. Qed.

Lemma concept_table O ty key :
  (if bool_decide (ty = "pass")
   then table_get O "pass_concepts" key
   else table_get O "run_concepts" key)
  = table_get O (Concept.table_name ty) key.
Proof. unfold Concept.table_name. by case_bool_decide. Qed.

(** The document of a call with a concept is the one of the call without,
    with the route layer before the end tag. *)
Lemma diagram_with_routes f c k :
  generate_play_diagram f c None = Some (page f c +:+ Diagram.close)
  ∧ generate_play_diagram f c k
    = Some (page f c +:+ route_layer k +:+ Diagram.close)
  ∧ route_segments (page f c +:+ route_layer k +:+ Diagram.close)
    = length (routes_of k).
Proof.
  rewrite !diagram_eq. split; [done|]. split; [done|].
  destruct (page_checks f c) as (_ & _ & _ & _ & Hr & _).
  destruct (tail_checks k) as (_ & Ht & _).
  unfold route_segments in *. fold (tail k).
  rewrite count_app; [lia|by apply element_tag_test|apply page_closed].
Qed.

(** X12.  /api/concept answers 404 exactly when the table that the type
    selects (the pass concepts for the type pass, the run concepts for
    every other type) has no entry under the key, or one that counts as
    false; it never fails on a table that is a dict.  Otherwise it
    answers 200 with the entry and the diagram of 4-3 against cover 3:
    the default diagram of /api/analyze with the route layer of the key
    before the end tag, which has one arrow line for each route that the
    table of routes lists under the key. *)
Theorem concept_found_or_404 O ty key T :
  getitem O (Concept.table_name ty) = Ok (JObj T) →
  let concept := default (JObj []) (assoc key T) in
  if truth concept then
    ∃ base,
      generate_play_diagram "4-3" "cover_3" None = Some (base +:+ "</svg>")
      ∧ get_concept_diagram O ty key
        = Ok (200%nat,
              JObj [ ("status", JStr "ok");
                     ("concept", concept);
                     ("diagram_svg", JStr (base +:+ route_layer (Some key) +:+ "</svg>")) ])
      ∧ route_segments (base +:+ route_layer (Some key) +:+ "</svg>")
        = length (routes_of (Some key))
  else get_concept_diagram O ty key = Ok Concept.not_found.
Proof.
  intros HT concept. unfold get_concept_diagram.
  rewrite concept_table, (table_get_object _ _ _ _ HT).
  cbn [mbind result_bind bind]. fold concept.
  destruct (truth concept); [|done]. cbn [negb].
  destruct (diagram_with_routes "4-3" "cover_3" (Some key)) as (H0 & Hk & Hr).
  exists (page "4-3" "cover_3"). split; [exact H0|]. split; [|exact Hr].
  by rewrite Hk.
Qed.

Lemma concept_found_or_404_witness :
  ∃ base,
    generate_play_diagram "4-3" "cover_3" None = Some (base +:+ "</svg>")
    ∧ get_concept_diagram Sample.OFFENSE "pass" "curl_flat"
      = Ok (200%nat,
            JObj [ ("status", JStr "ok");
                   ("concept", JObj [ ("name", JStr "Curl Flat") ]);
                   ("diagram_svg", JStr (base +:+ route_layer (Some "curl_flat") +:+ "</svg>")) ])
    ∧ route_segments (base +:+ route_layer (Some "curl_flat") +:+ "</svg>")
      = length (routes_of (Some "curl_flat")).
Proof.
  apply (concept_found_or_404 Sample.OFFENSE "pass" "curl_flat"
           [ ("four_verticals",
               JObj [ ("name", JStr "Four Verticals");
                      ("why_it_works", JObj [("cover_3", JStr "Four deep routes on three deep defenders")]) ]);
             ("curl_flat", JObj [ ("name", JStr "Curl Flat") ]);
             ("slant_flat", JObj [ ("name", JStr "Slant Flat") ]);
             ("empty", JObj []) ]).
  reflexivity.
Defined.

End concept.

(** ** [analyze_defense] *)

Section analyze.

Import Svg Layers Analyze.

Tactic Notation "step" uconstr(H) := rewrite H; cbn [mbind result_bind bind].

Lemma table_ok_inv check D name :
  table_ok check (getitem D name) = true →
  getitem D name = Ok (JObj (table D name))
  ∧ Forall (λ e, check e.2 = true) (table D name).
Proof.
  unfold table_ok, table. destruct (getitem D name) as [[| | | | |o]|]; try done.
  intros H. split; [done|]. apply Forall_forall. intros e He%list_elem_of_In.
  rewrite forallb_forall in H. by apply H.
Qed.

Lemma assoc_elem {A} k (T : list (string * A)) v : assoc k T = Some v → (k, v) ∈ T.
Proof.
  induction T as [|[k' v'] T IH]; [done|]. cbn [assoc].
  destruct (String.eqb_spec k' k) as [->|_].
  - intros [= ->]. apply list_elem_of_here.
  - intros H. by apply list_elem_of_further, IH.
Qed.

Lemma lookup_ok check T k :
  check (JObj []) = true → Forall (λ e, check e.2 = true) T →
  check (lookup T k) = true.
Proof.
  intros H0 HT. unfold lookup. destruct k; try done.
  destruct (assoc s T) as [v|] eqn:Hv; [|done]. cbn [default].
  apply assoc_elem in Hv. by apply (proj1 (Forall_forall _ _) HT _ Hv).
Qed.

Lemma get_any_lookup T k :
  hashable k = true → get_any (JObj T) k (JObj []) = Ok (lookup T k).
Proof. by destruct k. Qed.

Lemma get_any_object w k d :
  hashable k = true → ∃ v, get_any (JObj w) k d = Ok v.
Proof. destruct k; try done; cbn; eauto. Qed.

Lemma get_member o k d : get (JObj o) k d = Ok (member k d (JObj o)).
Proof. reflexivity. Qed.

Lemma hashables_inv v : hashables v = true → v = JArr (elements v) ∧ Forall (λ k, hashable k = true) (elements v).
Proof.
  destruct v; try done. cbn. intros H. split; [done|].
  apply Forall_forall. intros e He%list_elem_of_In.
  rewrite forallb_forall in H. by apply H.
Qed.

Lemma hashables_intro l : Forall (λ k, hashable k = true) l → forallb hashable l = true.
Proof.
  intros H. apply forallb_forall. intros x Hx%list_elem_of_In.
  by apply (proj1 (Forall_forall _ _) H).
Qed.

Lemma beaters_ok_inv v :
  beaters_ok v = true →
  ∃ o, v = JObj o
       ∧ hashables (member "best_pass" (JArr []) v) = true
       ∧ hashables (member "best_run" (JArr []) v) = true.
Proof.
  destruct v as [| | | | |o]; try done. cbn [beaters_ok member].
  intros [? ?]%andb_prop. eauto.
Qed.

(** *** Sets *)

Lemma distinct_elem seen l x : x ∈ distinct seen l → x ∈ seen ∨ x ∈ l.
Proof.
  revert seen. induction l as [|y l IH]; intros seen; cbn [distinct]; [auto|].
  destruct (existsb (py_eqb y) seen).
  - intros [?|?]%IH; [auto|]. right. by apply list_elem_of_further.
  - intros [[?| ->%list_elem_of_singleton]%elem_of_app|?]%IH; [auto| |].
    + right. apply list_elem_of_here.
    + right. by apply list_elem_of_further.
Qed.

Lemma py_eqb_refl x : hashable x = true → py_eqb x x = true.
Proof.
  destruct x as [|b|n|s| |]; try done; intros _; cbn.
  - apply Z.eqb_refl.
  - apply Z.eqb_refl.
  - apply String.eqb_refl.
Qed.

Lemma distinct_NoDup seen l :
  Forall (λ k, hashable k = true) l → NoDup seen → NoDup (distinct seen l).
Proof.
  intros Hl. revert seen. induction Hl as [|y l Hy Hl IH]; intros seen Hseen; [done|].
  cbn [distinct]. destruct (existsb (py_eqb y) seen) eqn:Hex; [by apply IH|].
  apply IH. apply NoDup_app. split; [done|]. split; [|apply NoDup_singleton].
  intros x Hx Hxy%list_elem_of_singleton. subst x.
  assert (existsb (py_eqb y) seen = true); [|congruence].
  apply existsb_exists. exists y. split; [by apply list_elem_of_In|by apply py_eqb_refl].
Qed.

Section order.

Variable order : list json → list json.
Hypothesis Horder : set_order order.

Lemma union_elem n a b x : x ∈ union order n a b → x ∈ a ∨ x ∈ b.
Proof.
  unfold union. intros Hx%subseteq_take.
  rewrite (Horder _) in Hx. apply distinct_elem in Hx as [Hx%elem_of_nil|Hx]; [done|].
  by apply elem_of_app.
Qed.

Lemma union_NoDup n a b :
  Forall (λ k, hashable k = true) a → Forall (λ k, hashable k = true) b →
  NoDup (union order n a b).
Proof.
  intros Ha Hb. unfold union. eapply sublist_NoDup; [|apply sublist_take]. rewrite (Horder _).
  apply distinct_NoDup; [by apply Forall_app|apply NoDup_nil_2].
Qed.

Lemma union_length n a b : (length (union order n a b) ≤ n)%nat.
Proof. unfold union. rewrite length_take. lia. Qed.

Lemma union_hashable n a b :
  Forall (λ k, hashable k = true) a → Forall (λ k, hashable k = true) b →
  Forall (λ k, hashable k = true) (union order n a b).
Proof.
  intros Ha Hb. apply Forall_forall. intros x [Hx|Hx]%union_elem.
  - by apply (proj1 (Forall_forall _ _) Ha).
  - by apply (proj1 (Forall_forall _ _) Hb).
Qed.

Lemma merged_ok n field a b :
  (∃ o, a = JObj o) → (∃ o, b = JObj o) →
  hashables (member field (JArr []) a) = true →
  hashables (member field (JArr []) b) = true →
  merged order n field a b
  = Ok (JArr (union order n (elements (member field (JArr []) a))
                      (elements (member field (JArr []) b)))).
Proof.
  intros [oa ->] [ob ->] [Ha Hah]%hashables_inv [Hb Hbh]%hashables_inv.
  unfold merged. rewrite !get_member. cbn [mbind result_bind bind].
  rewrite Ha, Hb. cbn [plus elements]. cbn [mbind result_bind bind].
  unfold set_list. cbn [iterate bind].
  rewrite hashables_intro by (by apply Forall_app). done.
Qed.

End order.

Lemma concept_ok_inv c :
  concept_ok c = true → truth c = true →
  ∃ o w, c = JObj o ∧ member "why_it_works" (JObj []) c = JObj w.
Proof.
  destruct c as [| | | | |o]; cbn [concept_ok]; try (intros ?%negb_true_iff; congruence).
  cbn [member]. destruct (default (JObj []) (assoc "why_it_works" o)); try done. eauto.
Qed.

Lemma keys_app a b : keys (JArr (a ++ b)) = (keys (JArr a) ++ keys (JArr b))%list.
Proof. unfold keys. cbn [elements]. by rewrite fmap_app. Qed.

Section details.

Variables (O : json) (formation coverage : json).
Hypothesis HO : offense_ok O = true.
Hypothesis Hf : hashable formation = true.
Hypothesis Hc : hashable coverage = true.

Lemma offense_tables :
  (getitem O "coverage_beaters" = Ok (JObj (table O "coverage_beaters"))
   ∧ Forall (λ e, beaters_ok e.2 = true) (table O "coverage_beaters"))
  ∧ (getitem O "pass_concepts" = Ok (JObj (table O "pass_concepts"))
     ∧ Forall (λ e, concept_ok e.2 = true) (table O "pass_concepts"))
  ∧ (getitem O "run_concepts" = Ok (JObj (table O "run_concepts"))
     ∧ Forall (λ e, concept_ok e.2 = true) (table O "run_concepts")).
Proof.
  unfold offense_ok in HO.
  apply andb_prop in HO as [[H1 H2]%andb_prop H3].
  split; [by apply table_ok_inv|]. split; by apply table_ok_inv.
Qed.

Lemma pass_detail_ok acc k :
  hashable k = true →
  ∃ ds, pass_detail O coverage acc k = Ok (acc ++ ds)%list
        ∧ keys (JArr ds) = if truth (lookup (table O "pass_concepts") k) then [k] else [].
Proof.
  intros Hk. destruct offense_tables as (_ & [HP HPok] & _).
  unfold pass_detail. step HP. step (get_any_lookup _ k Hk).
  pose proof (lookup_ok concept_ok _ k eq_refl HPok) as Hok.
  destruct (truth (lookup (table O "pass_concepts") k)) eqn:Ht.
  - destruct (concept_ok_inv _ Hok Ht) as (o & w & Hco & Hw). rewrite Hco in *.
    rewrite !get_member. cbn [mbind result_bind bind]. rewrite Hw.
    destruct (get_any_object w coverage (JStr "Exploits coverage weakness") Hc) as [v ->].
    cbn [mbind result_bind bind]. eexists. split; [reflexivity|]. reflexivity.
  - exists []. by rewrite app_nil_r.
Qed.

Lemma run_detail_ok acc k :
  hashable k = true →
  ∃ ds, run_detail O formation coverage acc k = Ok (acc ++ ds)%list
        ∧ keys (JArr ds) = if truth (lookup (table O "run_concepts") k) then [k] else [].
Proof.
  intros Hk. destruct offense_tables as (_ & _ & [HR HRok]).
  unfold run_detail. step HR. step (get_any_lookup _ k Hk).
  pose proof (lookup_ok concept_ok _ k eq_refl HRok) as Hok.
  destruct (truth (lookup (table O "run_concepts") k)) eqn:Ht.
  - destruct (concept_ok_inv _ Hok Ht) as (o & w & Hco & Hw). rewrite Hco in *.
    rewrite !get_member. cbn [mbind result_bind bind]. rewrite Hw.
    destruct (get_any_object w formation (JStr "Attacks defensive weakness") Hf) as [d ->].
    cbn [mbind result_bind bind].
    destruct (get_any_object w coverage d Hc) as [v ->].
    cbn [mbind result_bind bind]. eexists. split; [reflexivity|]. reflexivity.
  - exists []. by rewrite app_nil_r.
Qed.

Lemma detail_loop (body : list json → json → result (list json)) (T : list (string * json)) ks :
  (∀ acc k, hashable k = true →
     ∃ ds, body acc k = Ok (acc ++ ds)%list
           ∧ keys (JArr ds) = if truth (lookup T k) then [k] else []) →
  Forall (λ k, hashable k = true) ks →
  ∀ acc, ∃ ds, for_each ks body acc = Ok (acc ++ ds)%list
               ∧ keys (JArr ds) = filter (λ k, truth (lookup T k)) ks.
Proof.
  intros Hbody Hks. induction Hks as [|k ks Hk Hks IH]; intros acc.
  - exists []. by rewrite app_nil_r.
  - destruct (Hbody acc k Hk) as (d1 & H1 & Hk1). cbn [for_each]. rewrite H1. cbn [bind].
    destruct (IH (acc ++ d1)%list) as (d2 & H2 & Hk2). rewrite H2.
    exists (d1 ++ d2)%list. split; [by rewrite app_assoc|].
    rewrite keys_app, Hk1, Hk2, filter_cons.
    destruct (truth (lookup T k)); by rewrite ?decide_True, ?decide_False by done.
Qed.

End details.

Lemma request_ok_inv data :
  request_ok data = true →
  ∃ o, data = JObj o
       ∧ hashable (member "formation" (JStr "4-3") data) = true
       ∧ hashable (member "coverage" (JStr "cover_3") data) = true
       ∧ hashable (member "blitz" (JStr "base") data) = true.
Proof.
  destruct data as [| | | | |o]; try done. cbn [request_ok forallb member].
  intros H. repeat (apply andb_prop in H as [? H]). exists o. split; [done|].
  repeat split.
  - by destruct (assoc "formation" o).
  - by destruct (assoc "coverage" o).
  - by destruct (assoc "blitz" o).
Qed.

Lemma defenses_tables D :
  defenses_ok D = true →
  getitem D "coverages" = Ok (JObj (table D "coverages"))
  ∧ getitem D "formations" = Ok (JObj (table D "formations"))
  ∧ getitem D "blitz_packages" = Ok (JObj (table D "blitz_packages")).
Proof.
  unfold defenses_ok. intros [[H1 H2]%andb_prop H3]%andb_prop.
  split; [by apply (table_ok_inv (λ _, true))|].
  split; by apply (table_ok_inv (λ _, true)).
Qed.

Section handler.

Variables (order : list json → list json) (D O data : json).
Hypothesis Horder : set_order order.
Hypothesis HD : defenses_ok D = true.
Hypothesis HO : offense_ok O = true.
Hypothesis Hdata : request_ok data = true.

Lemma overriding_ok field a b :
  (∃ o, a = JObj o) → (∃ o, b = JObj o) →
  overriding field a b = Ok (member field (member field (JStr "") a) b).
Proof. by intros [oa ->] [ob ->]. Qed.

Lemma merge_ok a b :
  beaters_ok a = true → beaters_ok b = true →
  merge order a b
  = Ok (JObj [ ("best_pass", JArr (union order 5 (best "best_pass" a) (best "best_pass" b)));
               ("best_run", JArr (union order 4 (best "best_run" a) (best "best_run" b)));
               ("priority", member "priority" (member "priority" (JStr "") a) b);
               ("key_advice", member "key_advice" (member "key_advice" (JStr "") a) b) ]).
Proof.
  intros (oa & Ha & Hap & Har)%beaters_ok_inv (ob & Hb & Hbp & Hbr)%beaters_ok_inv.
  unfold merge.
  step (merged_ok order 5 "best_pass" a b); [|by eauto..].
  step (merged_ok order 4 "best_run" a b); [|by eauto..].
  step (overriding_ok "priority" a b); [|by eauto..].
  step (overriding_ok "key_advice" a b); [|by eauto..].
  done.
Qed.

Lemma answers_ok coverage blitz :
  hashables (member "best_pass" (JArr []) (answers order O coverage blitz)) = true
  ∧ hashables (member "best_run" (JArr []) (answers order O coverage blitz)) = true
  ∧ ∃ o, answers order O coverage blitz = JObj o.
Proof.
  destruct (offense_tables O HO) as ([_ HB] & _).
  pose proof (lookup_ok beaters_ok _ coverage eq_refl HB) as Hc.
  pose proof (lookup_ok beaters_ok _ blitz eq_refl HB) as Hb.
  unfold answers. destruct (negb _).
  - apply beaters_ok_inv in Hc as (oc & _ & [_ Hcp]%hashables_inv & [_ Hcr]%hashables_inv).
    apply beaters_ok_inv in Hb as (ob & _ & [_ Hbp]%hashables_inv & [_ Hbr]%hashables_inv).
    split; [|split; [|by eauto]].
    + apply hashables_intro. by apply union_hashable.
    + apply hashables_intro. by apply union_hashable.
  - apply beaters_ok_inv in Hc as (oc & ? & ? & ?). eauto.
Qed.

(** The response of the handler to a body that it can read. *)
Lemma analyze_eq :
  let formation := member "formation" (JStr "4-3") data in
  let coverage := member "coverage" (JStr "cover_3") data in
  let blitz := member "blitz" (JStr "base") data in
  let beaters := answers order O coverage blitz in
  ∃ pass_concepts run_concepts,
    analyze_defense order D O data
    = Ok (200%nat,
          JObj [ ("status", JStr "ok");
                 ("defense",
                   JObj [ ("formation", formation);
                          ("formation_info", lookup (table D "formations") formation);
                          ("coverage", coverage);
                          ("coverage_info", lookup (table D "coverages") coverage);
                          ("blitz", blitz);
                          ("blitz_info", lookup (table D "blitz_packages") blitz) ]);
                 ("offense",
                   JObj [ ("pass_concepts", JArr pass_concepts);
                          ("run_concepts", JArr run_concepts);
                          ("priority", member "priority" (JStr "") beaters);
                          ("key_advice", member "key_advice" (JStr "") beaters) ]);
                 ("diagram_svg", JStr (page (key formation) (key coverage) +:+ Diagram.close)) ])
    ∧ keys (JArr pass_concepts)
      = filter (λ k, truth (lookup (table O "pass_concepts") k)) (best "best_pass" beaters)
    ∧ keys (JArr run_concepts)
      = filter (λ k, truth (lookup (table O "run_concepts") k)) (best "best_run" beaters).
Proof.
  intros formation coverage blitz beaters.
  destruct (request_ok_inv data Hdata) as (o & Ho & Hf & Hc & Hb).
  fold formation in Hf. fold coverage in Hc. fold blitz in Hb.
  destruct (defenses_tables D HD) as (HDc & HDf & HDb).
  destruct (offense_tables O HO) as ([HOb HObok] & _).
  destruct (answers_ok coverage blitz) as (Hbp & Hbr & ob & Hbeaters).
  fold beaters in Hbp, Hbr, Hbeaters.
  apply hashables_inv in Hbp as [Hbp Hbph]. apply hashables_inv in Hbr as [Hbr Hbrh].
  destruct (detail_loop (pass_detail O coverage) (table O "pass_concepts")
              (best "best_pass" beaters)
              (pass_detail_ok O coverage HO Hc) Hbph []) as (ps & Hps & Hpk).
  destruct (detail_loop (run_detail O formation coverage) (table O "run_concepts")
              (best "best_run" beaters)
              (run_detail_ok O formation coverage HO Hf Hc) Hbrh []) as (rs & Hrs & Hrk).
  exists ps, rs. split; [|by split].
  unfold analyze_defense.
  assert (Hget : ∀ k d, get data k d = Ok (member k d data)) by (by rewrite Ho).
  step (Hget "formation"). step (Hget "coverage"). step (Hget "blitz").
  fold formation coverage blitz.
  step HDc. step (get_any_lookup _ coverage Hc).
  step HDf. step (get_any_lookup _ formation Hf).
  step HDb. step (get_any_lookup _ blitz Hb).
  step HOb. step (get_any_lookup _ coverage Hc).
  assert (Hmerge :
    (if negb (py_eqb blitz (JStr "base")) then
       blitz_beaters ← get_any (JObj (table O "coverage_beaters")) blitz (JObj []);
       merge order (lookup (table O "coverage_beaters") coverage) blitz_beaters
     else Ok (lookup (table O "coverage_beaters") coverage))
    = Ok beaters).
  { unfold beaters, answers. destruct (negb _); [|done].
    step (get_any_lookup _ blitz Hb).
    apply merge_ok; by apply (lookup_ok beaters_ok). }
  step Hmerge. rewrite Hbeaters. rewrite !get_member. rewrite <- Hbeaters.
  cbn [mbind result_bind bind].
  rewrite Hbp. cbn [iterate]. cbn [mbind result_bind bind].
  fold (best "best_pass" beaters). step Hps.
  rewrite Hbr. cbn [iterate]. cbn [mbind result_bind bind].
  fold (best "best_run" beaters). step Hrs.
  rewrite diagram_eq. cbn [Concept.diagram mbind result_bind bind].
  unfold tail. cbn [route_layer]. done.
Qed.

End handler.

Lemma default_diagram f c :
  generate_play_diagram f c None = Some (page f c +:+ Diagram.close)
  ∧ route_segments (page f c +:+ Diagram.close) = 0%nat.
Proof.
  destruct (diagram_with_routes f c None) as (H & _ & Hr). split; [exact H|].
  exact Hr.
Qed.

(** X13.  /api/analyze answers every body that is a dict whose formation,
    coverage and blitz, where it has them, are hashable, whether or not
    the tables list them: the answer names the three keys, 4-3, cover_3
    and base where the body has none, with the entries of the tables
    under them, the empty dict for a key that a table does not list, and
    carries the diagram of the formation against the coverage, which has
    no route. *)
Theorem analyze_answers_every_request order D O data :
  set_order order →
  defenses_ok D = true → offense_ok O = true → request_ok data = true →
  let formation := member "formation" (JStr "4-3") data in
  let coverage := member "coverage" (JStr "cover_3") data in
  let blitz := member "blitz" (JStr "base") data in
  ∃ offense doc,
    analyze_defense order D O data
    = Ok (200%nat,
          JObj [ ("status", JStr "ok");
                 ("defense",
                   JObj [ ("formation", formation);
                          ("formation_info", lookup (table D "formations") formation);
                          ("coverage", coverage);
                          ("coverage_info", lookup (table D "coverages") coverage);
                          ("blitz", blitz);
                          ("blitz_info", lookup (table D "blitz_packages") blitz) ]);
                 ("offense", offense);
                 ("diagram_svg", JStr doc) ])
    ∧ generate_play_diagram (key formation) (key coverage) None = Some doc
    ∧ route_segments doc = 0%nat.
Proof.
  intros Horder HD HO Hdata formation coverage blitz.
  destruct (analyze_eq order D O data Horder HD HO Hdata) as (ps & rs & H & _).
  destruct (default_diagram (key formation) (key coverage)) as [Hdoc Hr].
  eexists _, _. split; [exact H|]. by split.
Qed.

Lemma analyze_answers_every_request_witness :
  ∃ offense doc,
    analyze_defense (λ l, l) Sample.DEFENSES Sample.OFFENSE
      (JObj [ ("formation", JStr "wildcat"); ("coverage", JNum 3) ])
    = Ok (200%nat,
          JObj [ ("status", JStr "ok");
                 ("defense",
                   JObj [ ("formation", JStr "wildcat");
                          ("formation_info", JObj []);
                          ("coverage", JNum 3);
                          ("coverage_info", JObj []);
                          ("blitz", JStr "base");
                          ("blitz_info", Sample.entry "Base") ]);
                 ("offense", offense);
                 ("diagram_svg", JStr doc) ])
    ∧ generate_play_diagram "wildcat" "" None = Some doc
    ∧ route_segments doc = 0%nat.
Proof.
  apply (analyze_answers_every_request (λ l, l) Sample.DEFENSES Sample.OFFENSE
           (JObj [ ("formation", JStr "wildcat"); ("coverage", JNum 3) ])).
  - intros l. reflexivity.
  - reflexivity.
  - reflexivity.
  - reflexivity.
Defined.

Lemma get_any_unhashable T k d :
  hashable k = false → get_any (JObj T) k d = Raise TypeError.
Proof. by destruct k. Qed.

(** X14.  /api/analyze fails on every other body: with an AttributeError when
    the body is no dict, with a TypeError when its formation, coverage or
    blitz is a list or a dict. *)
Theorem analyze_rejects_other_bodies order D O data :
  defenses_ok D = true → request_ok data = false →
  analyze_defense order D O data
  = Raise (match data with JObj _ => TypeError | _ => AttributeError end).
Proof.
  intros HD Hdata. destruct (defenses_tables D HD) as (HDc & HDf & HDb).
  destruct data as [| | | | |o]; try done.
  unfold analyze_defense. rewrite !get_member. cbn [mbind result_bind bind].
  cbn [request_ok forallb] in Hdata. cbn [member].
  destruct (hashable (default (JStr "cover_3") (assoc "coverage" o))) eqn:Hc.
  2:{ step HDc. by step (get_any_unhashable _ _ _ Hc). }
  step HDc. step (get_any_lookup _ _ Hc).
  destruct (hashable (default (JStr "4-3") (assoc "formation" o))) eqn:Hf.
  2:{ step HDf. by step (get_any_unhashable _ _ _ Hf). }
  step HDf. step (get_any_lookup _ _ Hf).
  destruct (hashable (default (JStr "base") (assoc "blitz" o))) eqn:Hb.
  2:{ step HDb. by step (get_any_unhashable _ _ _ Hb). }
  exfalso.
  destruct (assoc "coverage" o), (assoc "formation" o), (assoc "blitz" o);
    cbn [default] in *; rewrite ?Hc, ?Hf, ?Hb in Hdata; done.
Qed.

Lemma analyze_rejects_other_bodies_witness :
  analyze_defense (λ l, l) Sample.DEFENSES Sample.OFFENSE
    (JObj [ ("coverage", JArr [JStr "cover_3"]) ])
  = Raise TypeError.
Proof.
  apply (analyze_rejects_other_bodies (λ l, l) Sample.DEFENSES Sample.OFFENSE
           (JObj [ ("coverage", JArr [JStr "cover_3"]) ])); reflexivity.
Defined.

Lemma py_eqb_base blitz : py_eqb blitz (JStr "base") = true ↔ blitz = JStr "base".
Proof.
  destruct blitz as [|b|n|s| |]; cbn; try (split; [done|discriminate]).
  rewrite String.eqb_eq. split; [by intros ->|by intros [= ->]].
Qed.

(** X15.  Without a blitz, the pass concepts of the answer of /api/analyze are
    the best pass concepts of the entry of the coverage that the table of
    pass concepts lists with an entry that counts as true, in the order
    of the entry; the run concepts likewise; the priority and the advice
    are those of the entry, the empty string when it has none. *)
Theorem base_answers_follow_the_coverage order D O data :
  set_order order →
  defenses_ok D = true → offense_ok O = true → request_ok data = true →
  member "blitz" (JStr "base") data = JStr "base" →
  let coverage := member "coverage" (JStr "cover_3") data in
  let beaters := lookup (table O "coverage_beaters") coverage in
  ∃ defense pass_concepts run_concepts doc,
    analyze_defense order D O data
    = Ok (200%nat,
          JObj [ ("status", JStr "ok");
                 ("defense", defense);
                 ("offense",
                   JObj [ ("pass_concepts", pass_concepts);
                          ("run_concepts", run_concepts);
                          ("priority", member "priority" (JStr "") beaters);
                          ("key_advice", member "key_advice" (JStr "") beaters) ]);
                 ("diagram_svg", doc) ])
    ∧ keys pass_concepts
      = filter (λ k, truth (lookup (table O "pass_concepts") k)) (best "best_pass" beaters)
    ∧ keys run_concepts
      = filter (λ k, truth (lookup (table O "run_concepts") k)) (best "best_run" beaters).
Proof.
  intros Horder HD HO Hdata Hbase coverage beaters.
  destruct (analyze_eq order D O data Horder HD HO Hdata) as (ps & rs & H & Hp & Hr).
  cbn zeta in H, Hp, Hr. fold coverage in H, Hp, Hr.
  unfold answers in H, Hp, Hr. rewrite Hbase in H, Hp, Hr.
  cbn [py_eqb String.eqb Ascii.eqb Bool.eqb negb] in H, Hp, Hr.
  fold beaters in H, Hp, Hr.
  eexists _, (JArr ps), (JArr rs), _. split; [exact H|]. by split.
Qed.

Lemma base_answers_follow_the_coverage_witness :
  ∃ defense pass_concepts run_concepts doc,
    analyze_defense (λ l, l) Sample.DEFENSES Sample.OFFENSE (JObj [])
    = Ok (200%nat,
          JObj [ ("status", JStr "ok");
                 ("defense", defense);
                 ("offense",
                   JObj [ ("pass_concepts", pass_concepts);
                          ("run_concepts", run_concepts);
                          ("priority", JStr "pass");
                          ("key_advice", JStr "Attack the seams") ]);
                 ("diagram_svg", doc) ])
    ∧ keys pass_concepts = [JStr "four_verticals"; JStr "curl_flat"]
    ∧ keys run_concepts = [JStr "inside_zone"].
Proof.
  apply (base_answers_follow_the_coverage (λ l, l) Sample.DEFENSES Sample.OFFENSE (JObj [])).
  - intros l. reflexivity.
  - reflexivity.
  - reflexivity.
  - reflexivity.
  - reflexivity.
Defined.

(** X16.  With a blitz, the pass concepts of the answer of /api/analyze are
    those of the first five members, in the order of the set, of the
    union of the best pass concepts of the coverage and of the blitz that
    the table of pass concepts lists with an entry that counts as true:
    at most five, none twice, each a best pass concept of the coverage or
    of the blitz.  The run concepts likewise, at most four.  The priority
    is that of the blitz; of the coverage when the blitz has none. *)
Theorem blitz_answers_are_merged order D O data :
  set_order order →
  defenses_ok D = true → offense_ok O = true → request_ok data = true →
  member "blitz" (JStr "base") data ≠ JStr "base" →
  let coverage := member "coverage" (JStr "cover_3") data in
  let blitz := member "blitz" (JStr "base") data in
  let beaters := lookup (table O "coverage_beaters") coverage in
  let blitz_beaters := lookup (table O "coverage_beaters") blitz in
  let listed name k := truth (lookup (table O name) k) in
  ∃ defense pass_concepts run_concepts key_advice doc,
    analyze_defense order D O data
    = Ok (200%nat,
          JObj [ ("status", JStr "ok");
                 ("defense", defense);
                 ("offense",
                   JObj [ ("pass_concepts", pass_concepts);
                          ("run_concepts", run_concepts);
                          ("priority",
                            member "priority" (member "priority" (JStr "") beaters)
                              blitz_beaters);
                          ("key_advice", key_advice) ]);
                 ("diagram_svg", doc) ])
    ∧ keys pass_concepts
      = filter (listed "pass_concepts")
          (union order 5 (best "best_pass" beaters) (best "best_pass" blitz_beaters))
    ∧ keys run_concepts
      = filter (listed "run_concepts")
          (union order 4 (best "best_run" beaters) (best "best_run" blitz_beaters))
    ∧ NoDup (keys pass_concepts) ∧ NoDup (keys run_concepts)
    ∧ (length (keys pass_concepts) ≤ 5)%nat ∧ (length (keys run_concepts) ≤ 4)%nat
    ∧ (∀ k, k ∈ keys pass_concepts →
            k ∈ best "best_pass" beaters ∨ k ∈ best "best_pass" blitz_beaters)
    ∧ (∀ k, k ∈ keys run_concepts →
            k ∈ best "best_run" beaters ∨ k ∈ best "best_run" blitz_beaters).
Proof.
  intros Horder HD HO Hdata Hblitz coverage blitz beaters blitz_beaters listed.
  destruct (analyze_eq order D O data Horder HD HO Hdata) as (ps & rs & H & Hp & Hr).
  cbn zeta in H, Hp, Hr. fold coverage blitz in H, Hp, Hr.
  unfold answers in H, Hp, Hr.
  destruct (py_eqb blitz (JStr "base")) eqn:Hb; [by apply py_eqb_base in Hb|].
  cbn [negb] in H, Hp, Hr. fold beaters blitz_beaters in H, Hp, Hr.
  change (best "best_pass" (JObj _)) with
    (union order 5 (best "best_pass" beaters) (best "best_pass" blitz_beaters)) in Hp.
  change (best "best_run" (JObj _)) with
    (union order 4 (best "best_run" beaters) (best "best_run" blitz_beaters)) in Hr.
  destruct (offense_tables O HO) as ([_ HB] & _).
  pose proof (lookup_ok beaters_ok _ coverage eq_refl HB) as Hc.
  pose proof (lookup_ok beaters_ok _ blitz eq_refl HB) as Hbb.
  fold beaters in Hc. fold blitz_beaters in Hbb.
  apply beaters_ok_inv in Hc as (oc & _ & [_ Hcp]%hashables_inv & [_ Hcr]%hashables_inv).
  apply beaters_ok_inv in Hbb as (ob & _ & [_ Hbp]%hashables_inv & [_ Hbr]%hashables_inv).
  eexists _, (JArr ps), (JArr rs), _, _. split; [exact H|].
  rewrite Hp, Hr. split; [done|]. split; [done|].
  split; [by apply NoDup_filter, union_NoDup|].
  split; [by apply NoDup_filter, union_NoDup|].
  split; [etrans; [apply length_filter|apply union_length]|].
  split; [etrans; [apply length_filter|apply union_length]|].
  split.
  - intros k [_ Hk]%list_elem_of_filter. by apply (union_elem order Horder 5).
  - intros k [_ Hk]%list_elem_of_filter. by apply (union_elem order Horder 4).
Qed.

Lemma blitz_answers_are_merged_witness :
  ∃ defense pass_concepts run_concepts key_advice doc,
    analyze_defense (λ l, l) Sample.DEFENSES Sample.OFFENSE (JObj [ ("blitz", JStr "fire") ])
    = Ok (200%nat,
          JObj [ ("status", JStr "ok");
                 ("defense", defense);
                 ("offense",
                   JObj [ ("pass_concepts", pass_concepts);
                          ("run_concepts", run_concepts);
                          ("priority", JStr "quick game");
                          ("key_advice", key_advice) ]);
                 ("diagram_svg", doc) ])
    ∧ keys pass_concepts = [JStr "four_verticals"; JStr "curl_flat"; JStr "slant_flat"]
    ∧ keys run_concepts = [JStr "inside_zone"]
    ∧ NoDup (keys pass_concepts) ∧ NoDup (keys run_concepts)
    ∧ (length (keys pass_concepts) ≤ 5)%nat ∧ (length (keys run_concepts) ≤ 4)%nat
    ∧ (∀ k, k ∈ keys pass_concepts →
            k ∈ [JStr "four_verticals"; JStr "curl_flat"; JStr "unheard_of"]
            ∨ k ∈ [JStr "slant_flat"; JStr "curl_flat"])
    ∧ (∀ k, k ∈ keys run_concepts → k ∈ [JStr "inside_zone"] ∨ k ∈ []).
Proof.
  apply (blitz_answers_are_merged (λ l, l) Sample.DEFENSES Sample.OFFENSE
           (JObj [ ("blitz", JStr "fire") ])).
  - intros l. reflexivity.
  - reflexivity.
  - reflexivity.
  - reflexivity.
  - discriminate.
Defined.

End analyze.
